(** * PalHardwareGazebo: the Gazebo hardware layer of the PAL robots

    A shallow embedding of [src/pal_hardware_gazebo.cpp]: the resource
    factory of [initSim], the two sensor parsers, and the [readSim] /
    [writeSim] cycle, with the properties the specification states about
    them.

    Conventions.
    - A [double] is a value of an abstract type [scalar]: the code only
      copies such values, it never computes with them.
    - A pointer is the key of the object it designates: a Gazebo joint or
      sensor is designated by its name in the simulation, a resource by its
      position in [rw_resources_], a sensor definition by its position in
      its definition vector (all three containers only grow).
    - The three virtual methods of a resource ([init], [read], [write]) live
      outside this translation unit; the facade is parametrised by them. *)

From Stdlib Require Import ZArith.
From stdpp Require Import base option list gmap strings.

Set Implicit Arguments.
Set Maximal Implicit Insertion.
Local Open Scope string_scope.
Local Open Scope list_scope.

(** ** Collaborators: transmissions, parameters, simulation *)

(** [ros::Time] and [ros::Duration]: integer nanoseconds. *)
Definition Time := Z.
Definition Duration := Z.

(** [transmission_interface::JointInfo] *)
Record JointInfo := {
  name_ : string;
  hardware_interfaces_ : list string
}.

(** [transmission_interface::TransmissionInfo] *)
Record TransmissionInfo := {
  joints_ : list JointInfo
}.

(** [ros::NodeHandle]: the parameter tree, as far as the facade queries it.
    [ids ns] are the keys found under namespace [ns], in the order [getIds]
    returns them; [param ns id key] is the string stored at [ns/id/key]
    (the configuration is complete: every sensor id has the keys that are
    fetched for it); [bool_param] is [getParam] on a [bool], which may be
    absent. *)
Record NodeHandle := {
  ids : string → list string;
  param : string → string → string → string;
  bool_param : string → option bool
}.

Definition getIds (nh : NodeHandle) (ns : string) : list string := ids nh ns.

(** [xh::fetchParam] on a key that is present. The helper is not part of
    this package; where a key is missing it does not return, and no
    statement below is about such a configuration: each one speaks of what
    a function has done when it returns. *)
Definition fetchParam (nh : NodeHandle) (ns sensor key : string) : string :=
  param nh ns sensor key.

Module Vector3.
Record t (scalar : Type) := { x : scalar; y : scalar; z : scalar }.
End Vector3.

Module Quaternion.
Record t (scalar : Type) :=
  { x : scalar; y : scalar; z : scalar; w : scalar }.
End Quaternion.

(** [gazebo::physics::JointWrench] *)
Record JointWrench (scalar : Type) := {
  body1Force : Vector3.t scalar;
  body2Force : Vector3.t scalar;
  body1Torque : Vector3.t scalar;
  body2Torque : Vector3.t scalar
}.

(** A joint of the simulated model: what can be read from it, and the last
    value applied through each of its three actuation channels. *)
Record Joint (scalar : Type) := {
  GetAngle : scalar;
  GetVelocity : scalar;
  GetForce : scalar;
  GetForceTorque : JointWrench scalar;
  position_target : option scalar;
  velocity_target : option scalar;
  force_target : option scalar
}.

(** [gazebo::sensors::ImuSensor] *)
Record ImuSensor (scalar : Type) := {
  GetOrientation : Quaternion.t scalar;
  GetAngularVelocity : Vector3.t scalar;
  GetLinearAcceleration : Vector3.t scalar
}.

(** A sensor known to the sensor manager; only an [ImuSensor] survives the
    [dynamic_pointer_cast] of [parseIMUSensors]. *)
Inductive Sensor (scalar : Type) :=
  | IsImuSensor (s : ImuSensor scalar)
  | OtherSensor.
Arguments OtherSensor {scalar}.

(** The simulation: the joints of the model and the sensor manager. *)
Record Gazebo (scalar : Type) := {
  joints : gmap string (Joint scalar);
  sensors : gmap string (Sensor scalar)
}.

Definition JointPtr := string.
Definition ImuSensorPtr := string.

(** [model->GetJoint(name)]: null when the model has no such joint. *)
Definition GetJoint {scalar} (model : Gazebo scalar) (name : string)
  : option JointPtr :=
  match joints model !! name with
  | Some _ => Some name
  | None => None
  end.

(** [dynamic_pointer_cast<ImuSensor>(SensorManager::Instance()->GetSensor(name))] *)
Definition GetImuSensor {scalar} (model : Gazebo scalar) (name : string)
  : option ImuSensorPtr :=
  match sensors model !! name with
  | Some (IsImuSensor _) => Some name
  | _ => None
  end.

(** ** Resources *)

(** The four capability variants built by [initSim]. *)
Inductive capability :=
  | JointState
  | PositionJoint
  | VelocityJoint
  | EffortJoint.

#[global] Instance capability_eq_dec : EqDecision capability.
Proof. solve_decision. Defined.

(** The [if / else if] chain of [initSim]: the class instantiated for an
    interface type, none for a string outside the four. *)
Definition select_resource (iface_type : string) : option capability :=
  if String.eqb iface_type "hardware_interface/JointStateInterface"
  then Some JointState
  else if String.eqb iface_type "hardware_interface/PositionJointInterface"
  then Some PositionJoint
  else if String.eqb iface_type "hardware_interface/VelocityJointInterface"
  then Some VelocityJoint
  else if String.eqb iface_type "hardware_interface/EffortJointInterface"
  then Some EffortJoint
  else None.

(** A resource object ([RwResPtr] target).
    Modelled from the spec: the resource classes are declared outside this
    file; section 3 gives a resource its joint name, its variant, state
    buffers for position, velocity and effort, a command buffer, and the
    joint of the simulation it is bound to. *)
Record Resource (scalar : Type) := {
  res_name : string;
  res_variant : capability;
  pos_ : scalar;
  vel_ : scalar;
  eff_ : scalar;
  cmd_ : scalar;
  sim_joint_ : JointPtr
}.

(** The (joint name, capability variant) pair a resource stands for. *)
Definition res_key {scalar} (r : Resource scalar) : string * capability :=
  (res_name r, res_variant r).

(** The interface groups a [RobotHW] can hold. *)
Inductive InterfaceId :=
  | JointStateInterface
  | EffortJointInterface
  | PositionJointInterface
  | VelocityJointInterface
  | ForceTorqueSensorInterface
  | ImuSensorInterface.

(** The part of the facade a resource reaches through its [RobotHW*]:
    the registered interface groups and the joint names that have a handle
    in each of the four joint groups. *)
Record RobotHW := {
  interfaces_ : list InterfaceId;
  js_interface_ : gset string;
  ej_interface_ : gset string;
  pj_interface_ : gset string;
  vj_interface_ : gset string
}.

Definition registerInterface (i : InterfaceId) (hw : RobotHW) : RobotHW :=
  {| interfaces_ := interfaces_ hw ++ [i];
     js_interface_ := js_interface_ hw;
     ej_interface_ := ej_interface_ hw;
     pj_interface_ := pj_interface_ hw;
     vj_interface_ := vj_interface_ hw |}.

(** How a call to [res->init] ends: normally, or by one of the three
    [catch] clauses of [initSim]. *)
Inductive InitOutcome (scalar : Type) :=
  | InitOk (r : Resource scalar)
  | ExistingResourceException
  | RuntimeError (what : string)
  | UnknownException.
Arguments ExistingResourceException {scalar}.
Arguments RuntimeError {scalar} what.
Arguments UnknownException {scalar}.

(** ** Sensor definitions and their handles *)

Definition array3 (scalar : Type) : Type := scalar * scalar * scalar.
Definition array4 (scalar : Type) : Type := scalar * scalar * scalar * scalar.

Module ForceTorqueSensorDefinition.
Record t (scalar : Type) := {
  gazebo_joint : option JointPtr;
  sensorName : string;
  sensorJointName : string;
  sensorFrame : string;
  force : array3 scalar;
  torque : array3 scalar
}.
End ForceTorqueSensorDefinition.

Module ImuSensorDefinition.
Record t (scalar : Type) := {
  gazebo_imu_sensor : option ImuSensorPtr;
  sensorName : string;
  sensorFrame : string;
  orientation : array4 scalar;
  base_ang_vel : array3 scalar;
  linear_acceleration : array3 scalar
}.
End ImuSensorDefinition.

(** The address of a buffer of the [i]-th definition of a vector. *)
Inductive BufferPtr :=
  | ft_force (i : nat)
  | ft_torque (i : nat)
  | imu_orientation (i : nat)
  | imu_base_ang_vel (i : nat)
  | imu_linear_acceleration (i : nat).

#[global] Instance BufferPtr_eq_dec : EqDecision BufferPtr.
Proof. solve_decision. Defined.

Module ForceTorqueSensorHandle.
Record t := {
  name : string;
  frame_id : string;
  force : BufferPtr;
  torque : BufferPtr
}.
End ForceTorqueSensorHandle.

Module ImuSensorHandle.
Record Data := {
  name : string;
  frame_id : string;
  orientation : BufferPtr;
  linear_acceleration : BufferPtr;
  angular_velocity : BufferPtr
}.
End ImuSensorHandle.

(** ** The facade *)

Record PalHardwareGazebo (scalar : Type) := {
  hw : RobotHW;
  ft_sensor_interface_ : gmap string ForceTorqueSensorHandle.t;
  imu_sensor_interface_ : gmap string ImuSensorHandle.Data;
  transmission_infos_ : list TransmissionInfo;
  rw_resources_ : list (Resource scalar);
  active_w_resources_rt_ : list nat;
  e_stop_active_ : bool;
  mode_switch_enabled_ : bool;
  forceTorqueSensorDefinitions_ : list (ForceTorqueSensorDefinition.t scalar);
  imuSensorDefinitions_ : list (ImuSensorDefinition.t scalar)
}.

Section Setters.
Context {scalar : Type}.
Local Abbreviation Facade := (PalHardwareGazebo scalar).

Definition set_hw (v : RobotHW) (st : Facade) : Facade :=
  {| hw := v;
     ft_sensor_interface_ := ft_sensor_interface_ st;
     imu_sensor_interface_ := imu_sensor_interface_ st;
     transmission_infos_ := transmission_infos_ st;
     rw_resources_ := rw_resources_ st;
     active_w_resources_rt_ := active_w_resources_rt_ st;
     e_stop_active_ := e_stop_active_ st;
     mode_switch_enabled_ := mode_switch_enabled_ st;
     forceTorqueSensorDefinitions_ := forceTorqueSensorDefinitions_ st;
     imuSensorDefinitions_ := imuSensorDefinitions_ st |}.

Definition set_ft_sensor_interface_
    (v : gmap string ForceTorqueSensorHandle.t) (st : Facade) : Facade :=
  {| hw := hw st;
     ft_sensor_interface_ := v;
     imu_sensor_interface_ := imu_sensor_interface_ st;
     transmission_infos_ := transmission_infos_ st;
     rw_resources_ := rw_resources_ st;
     active_w_resources_rt_ := active_w_resources_rt_ st;
     e_stop_active_ := e_stop_active_ st;
     mode_switch_enabled_ := mode_switch_enabled_ st;
     forceTorqueSensorDefinitions_ := forceTorqueSensorDefinitions_ st;
     imuSensorDefinitions_ := imuSensorDefinitions_ st |}.

Definition set_imu_sensor_interface_
    (v : gmap string ImuSensorHandle.Data) (st : Facade) : Facade :=
  {| hw := hw st;
     ft_sensor_interface_ := ft_sensor_interface_ st;
     imu_sensor_interface_ := v;
     transmission_infos_ := transmission_infos_ st;
     rw_resources_ := rw_resources_ st;
     active_w_resources_rt_ := active_w_resources_rt_ st;
     e_stop_active_ := e_stop_active_ st;
     mode_switch_enabled_ := mode_switch_enabled_ st;
     forceTorqueSensorDefinitions_ := forceTorqueSensorDefinitions_ st;
     imuSensorDefinitions_ := imuSensorDefinitions_ st |}.

Definition set_transmission_infos_
    (v : list TransmissionInfo) (st : Facade) : Facade :=
  {| hw := hw st;
     ft_sensor_interface_ := ft_sensor_interface_ st;
     imu_sensor_interface_ := imu_sensor_interface_ st;
     transmission_infos_ := v;
     rw_resources_ := rw_resources_ st;
     active_w_resources_rt_ := active_w_resources_rt_ st;
     e_stop_active_ := e_stop_active_ st;
     mode_switch_enabled_ := mode_switch_enabled_ st;
     forceTorqueSensorDefinitions_ := forceTorqueSensorDefinitions_ st;
     imuSensorDefinitions_ := imuSensorDefinitions_ st |}.

Definition set_rw_resources_
    (v : list (Resource scalar)) (st : Facade) : Facade :=
  {| hw := hw st;
     ft_sensor_interface_ := ft_sensor_interface_ st;
     imu_sensor_interface_ := imu_sensor_interface_ st;
     transmission_infos_ := transmission_infos_ st;
     rw_resources_ := v;
     active_w_resources_rt_ := active_w_resources_rt_ st;
     e_stop_active_ := e_stop_active_ st;
     mode_switch_enabled_ := mode_switch_enabled_ st;
     forceTorqueSensorDefinitions_ := forceTorqueSensorDefinitions_ st;
     imuSensorDefinitions_ := imuSensorDefinitions_ st |}.

Definition set_active_w_resources_rt_ (v : list nat) (st : Facade) : Facade :=
  {| hw := hw st;
     ft_sensor_interface_ := ft_sensor_interface_ st;
     imu_sensor_interface_ := imu_sensor_interface_ st;
     transmission_infos_ := transmission_infos_ st;
     rw_resources_ := rw_resources_ st;
     active_w_resources_rt_ := v;
     e_stop_active_ := e_stop_active_ st;
     mode_switch_enabled_ := mode_switch_enabled_ st;
     forceTorqueSensorDefinitions_ := forceTorqueSensorDefinitions_ st;
     imuSensorDefinitions_ := imuSensorDefinitions_ st |}.

Definition set_e_stop_active_ (v : bool) (st : Facade) : Facade :=
  {| hw := hw st;
     ft_sensor_interface_ := ft_sensor_interface_ st;
     imu_sensor_interface_ := imu_sensor_interface_ st;
     transmission_infos_ := transmission_infos_ st;
     rw_resources_ := rw_resources_ st;
     active_w_resources_rt_ := active_w_resources_rt_ st;
     e_stop_active_ := v;
     mode_switch_enabled_ := mode_switch_enabled_ st;
     forceTorqueSensorDefinitions_ := forceTorqueSensorDefinitions_ st;
     imuSensorDefinitions_ := imuSensorDefinitions_ st |}.

Definition set_mode_switch_enabled_ (v : bool) (st : Facade) : Facade :=
  {| hw := hw st;
     ft_sensor_interface_ := ft_sensor_interface_ st;
     imu_sensor_interface_ := imu_sensor_interface_ st;
     transmission_infos_ := transmission_infos_ st;
     rw_resources_ := rw_resources_ st;
     active_w_resources_rt_ := active_w_resources_rt_ st;
     e_stop_active_ := e_stop_active_ st;
     mode_switch_enabled_ := v;
     forceTorqueSensorDefinitions_ := forceTorqueSensorDefinitions_ st;
     imuSensorDefinitions_ := imuSensorDefinitions_ st |}.

Definition set_forceTorqueSensorDefinitions_
    (v : list (ForceTorqueSensorDefinition.t scalar)) (st : Facade) : Facade :=
  {| hw := hw st;
     ft_sensor_interface_ := ft_sensor_interface_ st;
     imu_sensor_interface_ := imu_sensor_interface_ st;
     transmission_infos_ := transmission_infos_ st;
     rw_resources_ := rw_resources_ st;
     active_w_resources_rt_ := active_w_resources_rt_ st;
     e_stop_active_ := e_stop_active_ st;
     mode_switch_enabled_ := mode_switch_enabled_ st;
     forceTorqueSensorDefinitions_ := v;
     imuSensorDefinitions_ := imuSensorDefinitions_ st |}.

Definition set_imuSensorDefinitions_
    (v : list (ImuSensorDefinition.t scalar)) (st : Facade) : Facade :=
  {| hw := hw st;
     ft_sensor_interface_ := ft_sensor_interface_ st;
     imu_sensor_interface_ := imu_sensor_interface_ st;
     transmission_infos_ := transmission_infos_ st;
     rw_resources_ := rw_resources_ st;
     active_w_resources_rt_ := active_w_resources_rt_ st;
     e_stop_active_ := e_stop_active_ st;
     mode_switch_enabled_ := mode_switch_enabled_ st;
     forceTorqueSensorDefinitions_ := forceTorqueSensorDefinitions_ st;
     imuSensorDefinitions_ := v |}.
End Setters.

(** ** Control flow *)

(** How the body of a loop of a [bool] function ends: it falls through to
    the next iteration, or it executes [return false]. The state reached is
    kept in both cases: nothing is undone on [return false]. *)
Inductive LoopExit (S : Type) :=
  | Continue (s : S)
  | ReturnFalse (s : S).

Fixpoint foreach {A S : Type} (body : A → S → LoopExit S) (l : list A) (s : S)
  : LoopExit S :=
  match l with
  | [] => Continue s
  | a :: l' =>
      match body a s with
      | Continue s' => foreach body l' s'
      | ReturnFalse s' => ReturnFalse s'
      end
  end.

Definition exit_state {S : Type} (e : LoopExit S) : S :=
  match e with Continue s => s | ReturnFalse s => s end.

Definition exit_map {S : Type} (g : S → S) (e : LoopExit S) : LoopExit S :=
  match e with
  | Continue s => Continue (g s)
  | ReturnFalse s => ReturnFalse (g s)
  end.

(** [ResourceManager::registerHandle]: a handle is stored under its name,
    a handle already registered under that name is replaced. *)
Fixpoint registerHandles {H : Type} (name : H → string) (hs : list H)
    (m : gmap string H) : gmap string H :=
  match hs with
  | [] => m
  | h :: hs' => registerHandles name hs' (<[name h := h]> m)
  end.

(** A virtual call issued by the cycle. *)
Inductive Method := read | write.

Record Call := {
  method : Method;
  target : nat;
  time_ : Time;
  period_ : Duration;
  e_stop : bool
}.

(** ** The operations of the facade *)

Section Facade.
Context {scalar : Type}.

(** The value [0.] a freshly constructed buffer holds. *)
Variable zero : scalar.

(** The virtual methods of the resource classes, selected by the variant
    of the object they are called on. [init] receives the joint name, the
    node handle, the model and the [RobotHW] it registers its handle with
    (the URDF model [initSim] forwards as well is part of the parameter);
    it returns or throws, and may have updated the [RobotHW] either way.
    [read] and [write] receive the cycle's time and period and the
    emergency-stop flag; they may update the object and the simulation. *)
Variable res_init :
  capability → string → NodeHandle → Gazebo scalar → RobotHW →
  InitOutcome scalar * RobotHW.
Variable res_read :
  Resource scalar → Time → Duration → bool → Gazebo scalar →
  Resource scalar * Gazebo scalar.
Variable res_write :
  Resource scalar → Time → Duration → bool → Gazebo scalar →
  Resource scalar * Gazebo scalar.

Local Abbreviation Facade := (PalHardwareGazebo scalar).

(** [PalHardwareGazebo::PalHardwareGazebo()]: every container is empty;
    the two [bool] members are not initialised by the constructor, so
    their starting values are arguments. *)
Definition new_PalHardwareGazebo (stop mode : bool) : Facade :=
  {| hw := {| interfaces_ := []; js_interface_ := ∅; ej_interface_ := ∅;
              pj_interface_ := ∅; vj_interface_ := ∅ |};
     ft_sensor_interface_ := ∅;
     imu_sensor_interface_ := ∅;
     transmission_infos_ := [];
     rw_resources_ := [];
     active_w_resources_rt_ := [];
     e_stop_active_ := stop;
     mode_switch_enabled_ := mode;
     forceTorqueSensorDefinitions_ := [];
     imuSensorDefinitions_ := [] |}.

(** Modelled from the spec: the class and its constructor are declared in
    the header [pal_hardware_gazebo.h]; section 3 gives a definition its
    name, attachment joint name and frame and two 3-vectors. The buffers
    start at [zero] and no joint is bound yet. *)
Definition new_ForceTorqueSensorDefinition
    (name sensor_joint_name frame : string)
  : ForceTorqueSensorDefinition.t scalar :=
  {| ForceTorqueSensorDefinition.gazebo_joint := None;
     ForceTorqueSensorDefinition.sensorName := name;
     ForceTorqueSensorDefinition.sensorJointName := sensor_joint_name;
     ForceTorqueSensorDefinition.sensorFrame := frame;
     ForceTorqueSensorDefinition.force := (zero, zero, zero);
     ForceTorqueSensorDefinition.torque := (zero, zero, zero) |}.

(** Modelled from the spec: as above, for the inertial definition (name,
    frame, a 4-component orientation and two 3-vectors). *)
Definition new_ImuSensorDefinition (name frame : string)
  : ImuSensorDefinition.t scalar :=
  {| ImuSensorDefinition.gazebo_imu_sensor := None;
     ImuSensorDefinition.sensorName := name;
     ImuSensorDefinition.sensorFrame := frame;
     ImuSensorDefinition.orientation := (zero, zero, zero, zero);
     ImuSensorDefinition.base_ang_vel := (zero, zero, zero);
     ImuSensorDefinition.linear_acceleration := (zero, zero, zero) |}.

(** *** parseForceTorqueSensors *)

(** The definition the loop over [ft_ids] builds for one sensor id, once
    its [gazebo_joint] has been assigned. *)
Definition make_ft_sensor (nh : NodeHandle) (model : Gazebo scalar)
    (sensor_name : string) : ForceTorqueSensorDefinition.t scalar :=
  let sensor_frame_id := fetchParam nh "force_torque" sensor_name "frame" in
  let sensor_joint_name :=
    fetchParam nh "force_torque" sensor_name "sensor_joint" in
  let ft :=
    new_ForceTorqueSensorDefinition sensor_name sensor_joint_name
      sensor_frame_id in
  {| ForceTorqueSensorDefinition.gazebo_joint :=
       GetJoint model (ForceTorqueSensorDefinition.sensorJointName ft);
     ForceTorqueSensorDefinition.sensorName :=
       ForceTorqueSensorDefinition.sensorName ft;
     ForceTorqueSensorDefinition.sensorJointName :=
       ForceTorqueSensorDefinition.sensorJointName ft;
     ForceTorqueSensorDefinition.sensorFrame :=
       ForceTorqueSensorDefinition.sensorFrame ft;
     ForceTorqueSensorDefinition.force :=
       ForceTorqueSensorDefinition.force ft;
     ForceTorqueSensorDefinition.torque :=
       ForceTorqueSensorDefinition.torque ft |}.

(** The body of the loop over [ft_ids]. *)
Definition parse_ft_sensor (nh : NodeHandle) (model : Gazebo scalar)
    (sensor_name : string) (st : Facade) : LoopExit Facade :=
  let ft := make_ft_sensor nh model sensor_name in
  match ForceTorqueSensorDefinition.gazebo_joint ft with
  | None => ReturnFalse st
  | Some _ =>
      Continue
        (set_forceTorqueSensorDefinitions_
           (forceTorqueSensorDefinitions_ st ++ [ft]) st)
  end.

Definition parseForceTorqueSensors (nh : NodeHandle) (model : Gazebo scalar)
    (st : Facade) : bool * Facade :=
  let ft_ids := getIds nh "force_torque" in
  match foreach (parse_ft_sensor nh model) ft_ids st with
  | Continue st' => (true, st')
  | ReturnFalse st' => (false, st')
  end.

(** *** parseIMUSensors *)

(** The body of the loop over [imu_ids]: every definition is bound to the
    one sensor the manager knows as ["imu_sensor"]. *)
Definition parse_imu_sensor (nh : NodeHandle) (model : Gazebo scalar)
    (sensor_name : string) (st : Facade) : LoopExit Facade :=
  let sensor_frame_id := fetchParam nh "imu" sensor_name "frame" in
  match GetImuSensor model "imu_sensor" with
  | None => ReturnFalse st
  | Some imu_sensor =>
      let imu := new_ImuSensorDefinition sensor_name sensor_frame_id in
      let imu :=
        {| ImuSensorDefinition.gazebo_imu_sensor := Some imu_sensor;
           ImuSensorDefinition.sensorName :=
             ImuSensorDefinition.sensorName imu;
           ImuSensorDefinition.sensorFrame :=
             ImuSensorDefinition.sensorFrame imu;
           ImuSensorDefinition.orientation :=
             ImuSensorDefinition.orientation imu;
           ImuSensorDefinition.base_ang_vel :=
             ImuSensorDefinition.base_ang_vel imu;
           ImuSensorDefinition.linear_acceleration :=
             ImuSensorDefinition.linear_acceleration imu |} in
      Continue
        (set_imuSensorDefinitions_ (imuSensorDefinitions_ st ++ [imu]) st)
  end.

Definition parseIMUSensors (nh : NodeHandle) (model : Gazebo scalar)
    (st : Facade) : bool * Facade :=
  let imu_ids := getIds nh "imu" in
  match foreach (parse_imu_sensor nh model) imu_ids st with
  | Continue st' => (true, st')
  | ReturnFalse st' => (false, st')
  end.

(** *** initSim *)

(** The body of the innermost loop: one (joint, interface type) pair. Of
    [joint_info] the body reads the name only. *)
Definition add_resource (nh : NodeHandle) (model : Gazebo scalar)
    (joint_name : string) (iface_type : string) (st : Facade)
  : LoopExit Facade :=
  match select_resource iface_type with
  | None => Continue st
  | Some res =>
      let (outcome, hw') := res_init res joint_name nh model (hw st) in
      match outcome with
      | InitOk r =>
          Continue
            (set_rw_resources_ (rw_resources_ st ++ [r]) (set_hw hw' st))
      | ExistingResourceException => Continue (set_hw hw' st)
      | RuntimeError _ => ReturnFalse (set_hw hw' st)
      | UnknownException => ReturnFalse (set_hw hw' st)
      end
  end.

(** The three nested loops over transmissions, joints and interface
    types. *)
Definition populate (nh : NodeHandle) (model : Gazebo scalar)
    (transmissions : list TransmissionInfo) (st : Facade)
  : LoopExit Facade :=
  foreach
    (λ tr_info,
       foreach
         (λ joint_info,
            foreach (add_resource nh model (name_ joint_info))
              (hardware_interfaces_ joint_info))
         (joints_ tr_info))
    transmissions st.

Definition writable (res : capability) : bool :=
  match res with
  | JointState => false
  | _ => true
  end.

(** Modelled from the spec: the method belongs to the base class
    [DefaultRobotHWSim]; section 4.4 has the initial active-writer set
    default to all writable resources. *)
Definition initActiveWriteResources (st : Facade) : Facade :=
  set_active_w_resources_rt_
    (omap (λ p : nat * Resource scalar,
             if writable (res_variant p.2) then Some p.1 else None)
          (imap pair (rw_resources_ st)))
    st.

Definition ft_handle (i : nat) (ft : ForceTorqueSensorDefinition.t scalar)
  : ForceTorqueSensorHandle.t :=
  {| ForceTorqueSensorHandle.name :=
       ForceTorqueSensorDefinition.sensorName ft;
     ForceTorqueSensorHandle.frame_id :=
       ForceTorqueSensorDefinition.sensorFrame ft;
     ForceTorqueSensorHandle.force := ft_force i;
     ForceTorqueSensorHandle.torque := ft_torque i |}.

Definition imu_handle (i : nat) (imu : ImuSensorDefinition.t scalar)
  : ImuSensorHandle.Data :=
  {| ImuSensorHandle.name := ImuSensorDefinition.sensorName imu;
     ImuSensorHandle.frame_id := ImuSensorDefinition.sensorFrame imu;
     ImuSensorHandle.orientation := imu_orientation i;
     ImuSensorHandle.linear_acceleration := imu_linear_acceleration i;
     ImuSensorHandle.angular_velocity := imu_base_ang_vel i |}.

(** Everything [initSim] does once the resources are built. The result of
    [parseForceTorqueSensors] is not looked at. *)
Definition finish_init (nh : NodeHandle) (model : Gazebo scalar)
    (st : Facade) : Facade :=
  let st := set_e_stop_active_ false st in
  let st := set_mode_switch_enabled_ true st in
  let st :=
    match bool_param nh "gazebo_ros_control/enable_joint_mode_switching" with
    | Some b => set_mode_switch_enabled_ b st
    | None => st
    end in
  let st := initActiveWriteResources st in
  let st := (parseForceTorqueSensors nh model st).2 in
  let st :=
    set_ft_sensor_interface_
      (registerHandles ForceTorqueSensorHandle.name
         (imap ft_handle (forceTorqueSensorDefinitions_ st))
         (ft_sensor_interface_ st)) st in
  let st := set_hw (registerInterface ForceTorqueSensorInterface (hw st)) st in
  let st :=
    set_imu_sensor_interface_
      (registerHandles ImuSensorHandle.name
         (imap imu_handle (imuSensorDefinitions_ st))
         (imu_sensor_interface_ st)) st in
  set_hw (registerInterface ImuSensorInterface (hw st)) st.

(** The first statements of [initSim]: the four joint interface groups
    are registered and the transmissions cached. *)
Definition start_init (transmissions : list TransmissionInfo) (st : Facade)
  : Facade :=
  let st := set_hw (registerInterface JointStateInterface (hw st)) st in
  let st := set_hw (registerInterface EffortJointInterface (hw st)) st in
  let st := set_hw (registerInterface PositionJointInterface (hw st)) st in
  let st := set_hw (registerInterface VelocityJointInterface (hw st)) st in
  set_transmission_infos_ transmissions st.

Definition initSim (robot_ns : string) (nh : NodeHandle)
    (model : Gazebo scalar) (transmissions : list TransmissionInfo)
    (st : Facade) : bool * Facade :=
  let st := start_init transmissions st in
  match populate nh model (transmission_infos_ st) st with
  | ReturnFalse st' => (false, st')
  | Continue st' => (true, finish_init nh model st')
  end.

(** *** readSim and writeSim *)

(** [BOOST_FOREACH(RwResPtr res, ptrs) res->m(time, period, stop)]: the
    method is called on the object behind each pointer in turn; the
    caller gets the objects, the simulation and the calls issued. *)
Fixpoint call_each (m : Method)
    (f : Resource scalar → Time → Duration → bool → Gazebo scalar →
         Resource scalar * Gazebo scalar)
    (time : Time) (period : Duration) (stop : bool) (ptrs : list nat)
    (rs : list (Resource scalar)) (world : Gazebo scalar)
  : list (Resource scalar) * Gazebo scalar * list Call :=
  match ptrs with
  | [] => (rs, world, [])
  | p :: ptrs' =>
      match rs !! p with
      | None => call_each m f time period stop ptrs' rs world
      | Some r =>
          let (r', world') := f r time period stop world in
          let '(rs', world'', calls) :=
            call_each m f time period stop ptrs' (<[p := r']> rs) world' in
          (rs', world'',
           {| method := m; target := p; time_ := time; period_ := period;
              e_stop := stop |} :: calls)
      end
  end.

(** The body of the loop over the force-torque definitions. A definition
    of the vector has its joint bound, and the joint lives as long as the
    simulation; the code dereferences the pointer unguarded, and the branch
    that leaves the definition alone stands for a pointer that designates
    nothing. *)
Definition read_force_torque (world : Gazebo scalar)
    (ft : ForceTorqueSensorDefinition.t scalar)
  : ForceTorqueSensorDefinition.t scalar :=
  match ForceTorqueSensorDefinition.gazebo_joint ft
        ≫= (λ p, joints world !! p) with
  | None => ft
  | Some joint =>
      let ft_wrench := GetForceTorque joint in
      {| ForceTorqueSensorDefinition.gazebo_joint :=
           ForceTorqueSensorDefinition.gazebo_joint ft;
         ForceTorqueSensorDefinition.sensorName :=
           ForceTorqueSensorDefinition.sensorName ft;
         ForceTorqueSensorDefinition.sensorJointName :=
           ForceTorqueSensorDefinition.sensorJointName ft;
         ForceTorqueSensorDefinition.sensorFrame :=
           ForceTorqueSensorDefinition.sensorFrame ft;
         ForceTorqueSensorDefinition.force :=
           (Vector3.x (body2Force ft_wrench),
            Vector3.y (body2Force ft_wrench),
            Vector3.z (body2Force ft_wrench));
         ForceTorqueSensorDefinition.torque :=
           (Vector3.x (body2Torque ft_wrench),
            Vector3.y (body2Torque ft_wrench),
            Vector3.z (body2Torque ft_wrench)) |}
  end.

Definition imu_source (world : Gazebo scalar) (p : ImuSensorPtr)
  : option (ImuSensor scalar) :=
  match sensors world !! p with
  | Some (IsImuSensor s) => Some s
  | _ => None
  end.

(** The body of the loop over the inertial definitions. *)
Definition read_imu (world : Gazebo scalar)
    (imu : ImuSensorDefinition.t scalar) : ImuSensorDefinition.t scalar :=
  match ImuSensorDefinition.gazebo_imu_sensor imu ≫= imu_source world with
  | None => imu
  | Some sensor =>
      let imu_quat := GetOrientation sensor in
      let imu_ang_vel := GetAngularVelocity sensor in
      let imu_lin_acc := GetLinearAcceleration sensor in
      {| ImuSensorDefinition.gazebo_imu_sensor :=
           ImuSensorDefinition.gazebo_imu_sensor imu;
         ImuSensorDefinition.sensorName := ImuSensorDefinition.sensorName imu;
         ImuSensorDefinition.sensorFrame :=
           ImuSensorDefinition.sensorFrame imu;
         ImuSensorDefinition.orientation :=
           (Quaternion.x imu_quat, Quaternion.y imu_quat,
            Quaternion.z imu_quat, Quaternion.w imu_quat);
         ImuSensorDefinition.base_ang_vel :=
           (Vector3.x imu_ang_vel, Vector3.y imu_ang_vel,
            Vector3.z imu_ang_vel);
         ImuSensorDefinition.linear_acceleration :=
           (Vector3.x imu_lin_acc, Vector3.y imu_lin_acc,
            Vector3.z imu_lin_acc) |}
  end.

Definition readSim (time : Time) (period : Duration) (st : Facade)
    (world : Gazebo scalar) : Facade * Gazebo scalar * list Call :=
  let '(rs, world', calls) :=
    call_each read res_read time period (e_stop_active_ st)
      (seq 0 (length (rw_resources_ st))) (rw_resources_ st) world in
  let st := set_rw_resources_ rs st in
  let st :=
    set_forceTorqueSensorDefinitions_
      (read_force_torque world' <$> forceTorqueSensorDefinitions_ st) st in
  let st :=
    set_imuSensorDefinitions_
      (read_imu world' <$> imuSensorDefinitions_ st) st in
  (st, world', calls).

(** [writeSim] holds [mutex_] for its whole body; here it runs alone. *)
Definition writeSim (time : Time) (period : Duration) (st : Facade)
    (world : Gazebo scalar) : Facade * Gazebo scalar * list Call :=
  let '(rs, world', calls) :=
    call_each write res_write time period (e_stop_active_ st)
      (active_w_resources_rt_ st) (rw_resources_ st) world in
  (set_rw_resources_ rs st, world', calls).

End Facade.

(** ** Vocabulary of the properties *)

(** The (joint name, interface type) pairs of a transmission list, in the
    order the three loops of [initSim] visit them. *)
Definition declared_pairs (transmissions : list TransmissionInfo)
  : list (string * string) :=
  tr_info ← transmissions;
  joint_info ← joints_ tr_info;
  iface_type ← hardware_interfaces_ joint_info;
  [(name_ joint_info, iface_type)].

(** The four interface types [initSim] knows. *)
Definition recognized_interfaces : list string :=
  [ "hardware_interface/JointStateInterface";
    "hardware_interface/PositionJointInterface";
    "hardware_interface/VelocityJointInterface";
    "hardware_interface/EffortJointInterface" ].

(** A transmission list with every interface type outside the four
    removed. *)
Definition recognized_only (transmissions : list TransmissionInfo)
  : list TransmissionInfo :=
  (λ tr_info,
     {| joints_ :=
          (λ joint_info,
             {| name_ := name_ joint_info;
                hardware_interfaces_ :=
                  filter (λ t, is_Some (select_resource t))
                    (hardware_interfaces_ joint_info) |})
          <$> joints_ tr_info |})
  <$> transmissions.

(** The outcomes of [init] that reach the second or third [catch]. *)
Definition fatal {scalar} (o : InitOutcome scalar) : Prop :=
  match o with
  | RuntimeError _ | UnknownException => True
  | InitOk _ | ExistingResourceException => False
  end.

(** The actuation channel a resource commands: its joint, through the
    channel of its variant. *)
Definition channel {scalar} (r : Resource scalar) : JointPtr * capability :=
  (sim_joint_ r, res_variant r).

Definition command_target {scalar} (res : capability) (j : Joint scalar)
  : option scalar :=
  match res with
  | JointState => None
  | PositionJoint => position_target j
  | VelocityJoint => velocity_target j
  | EffortJoint => force_target j
  end.

(** The value last applied to a channel of the simulation. *)
Definition external_target {scalar} (world : Gazebo scalar)
    (c : JointPtr * capability) : option scalar :=
  joints world !! c.1 ≫= command_target c.2.

(** What the resource loop of [initSim] leaves alone: everything but the
    resources, the [RobotHW] and the cached transmissions. *)
Definition same_sensors {scalar} (st st' : PalHardwareGazebo scalar) : Prop :=
  ft_sensor_interface_ st' = ft_sensor_interface_ st
  ∧ imu_sensor_interface_ st' = imu_sensor_interface_ st
  ∧ forceTorqueSensorDefinitions_ st' = forceTorqueSensorDefinitions_ st
  ∧ imuSensorDefinitions_ st' = imuSensorDefinitions_ st
  ∧ active_w_resources_rt_ st' = active_w_resources_rt_ st
  ∧ e_stop_active_ st' = e_stop_active_ st
  ∧ mode_switch_enabled_ st' = mode_switch_enabled_ st.

(** ** A resource implementation after the specification *)

Section SpecResource.
Context {scalar : Type}.
Variable zero : scalar.

(** The joint interface group a variant registers its handle with. *)
Definition interface_of (res : capability) (hw : RobotHW) : gset string :=
  match res with
  | JointState => js_interface_ hw
  | PositionJoint => pj_interface_ hw
  | VelocityJoint => vj_interface_ hw
  | EffortJoint => ej_interface_ hw
  end.

Definition hasResource (res : capability) (name : string) (hw : RobotHW)
  : bool :=
  bool_decide (name ∈ interface_of res hw).

Definition registerHandle (res : capability) (name : string) (hw : RobotHW)
  : RobotHW :=
  match res with
  | JointState =>
      {| interfaces_ := interfaces_ hw;
         js_interface_ := {[name]} ∪ js_interface_ hw;
         ej_interface_ := ej_interface_ hw;
         pj_interface_ := pj_interface_ hw;
         vj_interface_ := vj_interface_ hw |}
  | PositionJoint =>
      {| interfaces_ := interfaces_ hw;
         js_interface_ := js_interface_ hw;
         ej_interface_ := ej_interface_ hw;
         pj_interface_ := {[name]} ∪ pj_interface_ hw;
         vj_interface_ := vj_interface_ hw |}
  | VelocityJoint =>
      {| interfaces_ := interfaces_ hw;
         js_interface_ := js_interface_ hw;
         ej_interface_ := ej_interface_ hw;
         pj_interface_ := pj_interface_ hw;
         vj_interface_ := {[name]} ∪ vj_interface_ hw |}
  | EffortJoint =>
      {| interfaces_ := interfaces_ hw;
         js_interface_ := js_interface_ hw;
         ej_interface_ := {[name]} ∪ ej_interface_ hw;
         pj_interface_ := pj_interface_ hw;
         vj_interface_ := vj_interface_ hw |}
  end.

(** Modelled from the spec: [init] of the resource classes, which the
    facade only calls. Sections 4.1 and 4.2: [init] fails
    with the already-exists condition when a resource for this joint and
    variant is registered; otherwise it binds to the named joint of the
    simulation and fails if the joint does not exist there; otherwise the
    resource is constructed and its handle registered. *)
Definition Resource_init (res : capability) (name : string)
    (nh : NodeHandle) (model : Gazebo scalar) (hw : RobotHW)
  : InitOutcome scalar * RobotHW :=
  if hasResource res name hw then (ExistingResourceException, hw)
  else
    match GetJoint model name with
    | None => (RuntimeError "joint not found in the simulated model", hw)
    | Some joint =>
        (InitOk {| res_name := name; res_variant := res;
                   pos_ := zero; vel_ := zero; eff_ := zero; cmd_ := zero;
                   sim_joint_ := joint |},
         registerHandle res name hw)
    end.

(** Modelled from the spec: [read] of the resource classes. Section 4.2:
    [read] copies the current actuator state from the simulation into the
    buffers of the resource and has no effect on the simulation. *)
Definition Resource_read (r : Resource scalar) (time : Time)
    (period : Duration) (stop : bool) (world : Gazebo scalar)
  : Resource scalar * Gazebo scalar :=
  match joints world !! sim_joint_ r with
  | None => (r, world)
  | Some joint =>
      ({| res_name := res_name r; res_variant := res_variant r;
          pos_ := GetAngle joint; vel_ := GetVelocity joint;
          eff_ := GetForce joint; cmd_ := cmd_ r;
          sim_joint_ := sim_joint_ r |},
       world)
  end.

(** Modelled from the spec: the safe value of a variant. Section 4.2
    names zero effort, zero velocity and holding the position; the
    position held is the one last read. *)
Definition safe_value (r : Resource scalar) : scalar :=
  match res_variant r with
  | PositionJoint => pos_ r
  | _ => zero
  end.

Definition apply_command (res : capability) (value : scalar)
    (j : Joint scalar) : Joint scalar :=
  match res with
  | JointState => j
  | PositionJoint =>
      {| GetAngle := GetAngle j; GetVelocity := GetVelocity j;
         GetForce := GetForce j; GetForceTorque := GetForceTorque j;
         position_target := Some value;
         velocity_target := velocity_target j;
         force_target := force_target j |}
  | VelocityJoint =>
      {| GetAngle := GetAngle j; GetVelocity := GetVelocity j;
         GetForce := GetForce j; GetForceTorque := GetForceTorque j;
         position_target := position_target j;
         velocity_target := Some value;
         force_target := force_target j |}
  | EffortJoint =>
      {| GetAngle := GetAngle j; GetVelocity := GetVelocity j;
         GetForce := GetForce j; GetForceTorque := GetForceTorque j;
         position_target := position_target j;
         velocity_target := velocity_target j;
         force_target := Some value |}
  end.

(** Modelled from the spec: [write] of the resource classes. Section 4.2:
    [write] applies the command buffer to the actuator of the joint; with
    the emergency stop asserted it applies the safe value of the variant
    instead. A joint-state resource commands nothing. *)
Definition Resource_write (r : Resource scalar) (time : Time)
    (period : Duration) (stop : bool) (world : Gazebo scalar)
  : Resource scalar * Gazebo scalar :=
  let value := if stop then safe_value r else cmd_ r in
  (r,
   {| joints :=
        alter (apply_command (res_variant r) value) (sim_joint_ r)
          (joints world);
      sensors := sensors world |}).

End SpecResource.

(** Every joint handle names a joint of the simulation. *)
Definition handles_resolved {scalar} (model : Gazebo scalar) (hw : RobotHW)
  : Prop :=
  ∀ res name, name ∈ interface_of res hw → is_Some (joints model !! name).

(** The facade holds at most one resource per (joint name, variant) pair,
    and the joint handles registered are those of the resources held. *)
Definition registry_consistent {scalar} (st : PalHardwareGazebo scalar)
  : Prop :=
  NoDup (res_key <$> rw_resources_ st)
  ∧ ∀ name res,
      name ∈ interface_of res (hw st) ↔
      (name, res) ∈ res_key <$> rw_resources_ st.

(** ** Scenarios *)

(** Concrete robots, configurations and simulations, with [Z] for the
    scalars. *)
Module Scenario.

Definition vec (a b c : Z) : Vector3.t Z :=
  {| Vector3.x := a; Vector3.y := b; Vector3.z := c |}.

Definition joint (angle : Z) : Joint Z :=
  {| GetAngle := angle; GetVelocity := 2%Z; GetForce := 3%Z;
     GetForceTorque :=
       {| body1Force := vec 0 0 0; body2Force := vec 4 5 6;
          body1Torque := vec 0 0 0; body2Torque := vec 7 8 9 |};
     position_target := None; velocity_target := None;
     force_target := None |}.

Definition base_imu : ImuSensor Z :=
  {| GetOrientation :=
       {| Quaternion.x := 1%Z; Quaternion.y := 2%Z; Quaternion.z := 3%Z;
          Quaternion.w := 4%Z |};
     GetAngularVelocity := vec 5 6 7;
     GetLinearAcceleration := vec 8 9 10 |}.

(** A simulation with joints ["j1"] and ["j2"] and the base IMU. *)
Definition world : Gazebo Z :=
  {| joints := <["j1" := joint 1]> (<["j2" := joint 11]> ∅);
     sensors := <["imu_sensor" := IsImuSensor base_imu]> ∅ |}.

(** The same simulation without any joint. *)
Definition world_without_joints : Gazebo Z :=
  {| joints := ∅; sensors := sensors world |}.

(** No sensor is configured. *)
Definition nh_empty : NodeHandle :=
  {| ids := λ _, []; param := λ _ _ _, ""; bool_param := λ _, None |}.

(** One force-torque sensor ["ft0"] attached to joint ["j1"]. *)
Definition nh_ft0 : NodeHandle :=
  {| ids := λ ns, if String.eqb ns "force_torque" then ["ft0"] else [];
     param := λ _ _ key,
       if String.eqb key "sensor_joint" then "j1" else "ft0_link";
     bool_param := λ _, None |}.

(** Two force-torque sensors: ["ft0"] on ["j1"], then ["ft1"] on a joint
    ["j9"] the simulation does not have. *)
Definition nh_ft01 : NodeHandle :=
  {| ids := λ ns, if String.eqb ns "force_torque" then ["ft0"; "ft1"] else [];
     param := λ _ id key,
       if String.eqb key "sensor_joint"
       then (if String.eqb id "ft0" then "j1" else "j9")
       else "ft_link";
     bool_param := λ _, None |}.

(** Two inertial sensors ["imu0"] and ["imu1"]. *)
Definition nh_imu01 : NodeHandle :=
  {| ids := λ ns, if String.eqb ns "imu" then ["imu0"; "imu1"] else [];
     param := λ _ _ _, "base_link";
     bool_param := λ _, None |}.

Definition position_iface : string :=
  "hardware_interface/PositionJointInterface".
Definition effort_iface : string :=
  "hardware_interface/EffortJointInterface".
Definition state_iface : string :=
  "hardware_interface/JointStateInterface".

Definition transmission (name : string) (ifaces : list string)
  : TransmissionInfo :=
  {| joints_ := [ {| name_ := name; hardware_interfaces_ := ifaces |} ] |}.

(** Joint ["j1"] with a position interface, declared by two
    transmissions, and with an interface type of a later version. *)
Definition robot_j1 : list TransmissionInfo :=
  [ transmission "j1" [state_iface; position_iface; "hardware_interface/Other"];
    transmission "j1" [position_iface] ].

(** Joint ["j1"], then a joint ["j9"] the simulation does not have. *)
Definition robot_j1_j9 : list TransmissionInfo :=
  [ transmission "j1" [position_iface];
    transmission "j9" [effort_iface];
    transmission "j2" [effort_iface] ].

Definition fresh : PalHardwareGazebo Z := new_PalHardwareGazebo true false.

(** A resource implementation whose [init] throws something that is not a
    [std::runtime_error] for joint ["j2"]. *)
Definition init_throwing (res : capability) (name : string) (nh : NodeHandle)
    (model : Gazebo Z) (hw : RobotHW) : InitOutcome Z * RobotHW :=
  if String.eqb name "j2" then (UnknownException, hw)
  else Resource_init 0%Z res name nh model hw.

Definition resource (name : string) (res : capability) (cmd : Z)
  : Resource Z :=
  {| res_name := name; res_variant := res; pos_ := 20%Z; vel_ := 21%Z;
     eff_ := 22%Z; cmd_ := cmd; sim_joint_ := name |}.

(** A facade in operation: three resources, of which only the effort
    resource of ["j2"] is an active writer, and one definition of each
    sensor class. *)
Definition running (stop : bool) : PalHardwareGazebo Z :=
  {| hw := hw fresh;
     ft_sensor_interface_ := ∅;
     imu_sensor_interface_ := ∅;
     transmission_infos_ := [];
     rw_resources_ :=
       [ resource "j1" JointState 0; resource "j1" PositionJoint 30;
         resource "j2" EffortJoint 40 ];
     active_w_resources_rt_ := [2];
     e_stop_active_ := stop;
     mode_switch_enabled_ := true;
     forceTorqueSensorDefinitions_ := [ make_ft_sensor 0%Z nh_ft0 world "ft0" ];
     imuSensorDefinitions_ :=
       (parseIMUSensors 0%Z nh_imu01 world fresh).2.(imuSensorDefinitions_) |}.

End Scenario.

(** ** Vocabulary of the further properties *)

(** The interface type string that selects a variant. *)
Definition interface_name (res : capability) : string :=
  match res with
  | JointState => "hardware_interface/JointStateInterface"
  | PositionJoint => "hardware_interface/PositionJointInterface"
  | VelocityJoint => "hardware_interface/VelocityJointInterface"
  | EffortJoint => "hardware_interface/EffortJointInterface"
  end.

(** A force-torque definition whose joint pointer is not null and
    designates a joint of the simulation: what the unguarded dereference
    of [readSim] relies on. *)
Definition ft_bound {scalar} (world : Gazebo scalar)
    (ft : ForceTorqueSensorDefinition.t scalar) : Prop :=
  ∃ p, ForceTorqueSensorDefinition.gazebo_joint ft = Some p
       ∧ is_Some (joints world !! p).

(** The definition the loop of [parseIMUSensors] appends for one sensor
    id: whatever the id, it is bound to the sensor ["imu_sensor"]. *)
Definition imu_definition_of {scalar} (zero : scalar) (nh : NodeHandle)
    (sensor_name : string) : ImuSensorDefinition.t scalar :=
  {| ImuSensorDefinition.gazebo_imu_sensor := Some "imu_sensor";
     ImuSensorDefinition.sensorName := sensor_name;
     ImuSensorDefinition.sensorFrame := fetchParam nh "imu" sensor_name "frame";
     ImuSensorDefinition.orientation := (zero, zero, zero, zero);
     ImuSensorDefinition.base_ang_vel := (zero, zero, zero);
     ImuSensorDefinition.linear_acceleration := (zero, zero, zero) |}.

(** What the cycle leaves alone: everything but the resource objects and
    the buffers of the sensor definitions. *)
Definition same_registration {scalar} (st st' : PalHardwareGazebo scalar)
  : Prop :=
  hw st' = hw st
  ∧ ft_sensor_interface_ st' = ft_sensor_interface_ st
  ∧ imu_sensor_interface_ st' = imu_sensor_interface_ st
  ∧ transmission_infos_ st' = transmission_infos_ st
  ∧ active_w_resources_rt_ st' = active_w_resources_rt_ st
  ∧ e_stop_active_ st' = e_stop_active_ st
  ∧ mode_switch_enabled_ st' = mode_switch_enabled_ st
  ∧ length (rw_resources_ st') = length (rw_resources_ st).

(** The identity of a force-torque definition: all of it but the buffers. *)
Definition ft_identity {scalar} (ft : ForceTorqueSensorDefinition.t scalar)
  : option JointPtr * string * string * string :=
  (ForceTorqueSensorDefinition.gazebo_joint ft,
   ForceTorqueSensorDefinition.sensorName ft,
   ForceTorqueSensorDefinition.sensorJointName ft,
   ForceTorqueSensorDefinition.sensorFrame ft).

(** The identity of an inertial definition. *)
Definition imu_identity {scalar} (imu : ImuSensorDefinition.t scalar)
  : option ImuSensorPtr * string * string :=
  (ImuSensorDefinition.gazebo_imu_sensor imu,
   ImuSensorDefinition.sensorName imu,
   ImuSensorDefinition.sensorFrame imu).

(** Further scenarios. *)
Module Scenario2.

(** Joint mode switching is switched off by the configuration. *)
Definition nh_mode_off : NodeHandle :=
  {| ids := λ _, []; param := λ _ _ _, "";
     bool_param := λ key,
       if String.eqb key "gazebo_ros_control/enable_joint_mode_switching"
       then Some false else None |}.

(** The simulation of [Scenario.world] whose sensor ["imu_sensor"] is not
    an inertial sensor. *)
Definition world_other_sensor : Gazebo Z :=
  {| joints := joints Scenario.world;
     sensors := <["imu_sensor" := OtherSensor]> ∅ |}.

(** Two force-torque sensors, both on joints the simulation has. *)
Definition nh_ft_ok : NodeHandle :=
  {| ids := λ ns, if String.eqb ns "force_torque" then ["ft0"; "ft1"] else [];
     param := λ _ id key,
       if String.eqb key "sensor_joint"
       then (if String.eqb id "ft0" then "j1" else "j2")
       else "ft_link";
     bool_param := λ _, None |}.

(** A facade on which [parseIMUSensors] has been run. *)
Definition with_imus : PalHardwareGazebo Z :=
  (parseIMUSensors 0%Z Scenario.nh_imu01 Scenario.world Scenario.fresh).2.

(** The facade [Scenario.running false] with other values in the two
    resources that are not active writers. *)
Definition running_other : PalHardwareGazebo Z :=
  set_rw_resources_
    [ Scenario.resource "j1" JointState 99;
      Scenario.resource "j1" PositionJoint 77;
      Scenario.resource "j2" EffortJoint 40 ]
    (Scenario.running false).

(** The facade [Scenario.running stop] with the position resource of
    ["j1"] an active writer as well. *)
Definition running_both (stop : bool) : PalHardwareGazebo Z :=
  set_active_w_resources_rt_ [1; 2] (Scenario.running stop).

End Scenario2.

(** * Properties *)

Unset Implicit Arguments.

(** ** Loops *)

Lemma foreach_app {A S : Type} (body : A → S → LoopExit S) (l1 l2 : list A)
    (s : S) :
  foreach body (l1 ++ l2) s =
  match foreach body l1 s with
  | Continue s' => foreach body l2 s'
  | ReturnFalse s' => ReturnFalse s'
  end.
Proof.
  revert s. induction l1 as [|a l1 IH]; intros s; simpl; [done|].
  destruct (body a s); [apply IH | done].
Qed.

Lemma foreach_bind {A B S : Type} (f : A → list B) (body : B → S → LoopExit S)
    (l : list A) (s : S) :
  foreach (λ a, foreach body (f a)) l s = foreach body (l ≫= f) s.
Proof.
  revert s. induction l as [|a l IH]; intros s; simpl; [done|].
  rewrite foreach_app. destruct (foreach body (f a) s); [apply IH | done].
Qed.

(** A loop stops at the first iteration that returns. *)
Lemma foreach_return {A S : Type} (body : A → S → LoopExit S)
    (done : list A) (a : A) (rest : list A) (s s1 s2 : S) :
  foreach body done s = Continue s1 →
  body a s1 = ReturnFalse s2 →
  foreach body (done ++ a :: rest) s = ReturnFalse s2.
Proof.
  intros Hdone Ha. rewrite foreach_app, Hdone. simpl. by rewrite Ha.
Qed.

(** A loop that returns does so at some iteration, the ones before it
    having fallen through. *)
Lemma foreach_return_inv {A S : Type} (body : A → S → LoopExit S)
    (l : list A) (s s2 : S) :
  foreach body l s = ReturnFalse s2 →
  ∃ done a rest s1,
    l = done ++ a :: rest
    ∧ foreach body done s = Continue s1
    ∧ body a s1 = ReturnFalse s2.
Proof.
  revert s. induction l as [|a l IH]; intros s Hrun; [done|].
  simpl in Hrun. destruct (body a s) as [s'|s'] eqn:Ha.
  - destruct (IH s' Hrun) as (done & b & rest & s1 & -> & Hdone & Hb).
    exists (a :: done), b, rest, s1. simpl. by rewrite Ha.
  - injection Hrun as ->. by exists [], a, l, s.
Qed.

(** An invariant of the body is an invariant of the loop, however it
    ends. *)
Lemma foreach_invariant {A S : Type} (P : S → Prop)
    (body : A → S → LoopExit S) (l : list A) (s : S) :
  (∀ a s', a ∈ l → P s' → P (exit_state (body a s'))) →
  P s → P (exit_state (foreach body l s)).
Proof.
  revert s. induction l as [|a l IH]; intros s Hbody Hs; simpl; [done|].
  assert (P (exit_state (body a s))) as Ha by (apply Hbody; [left | done]).
  destruct (body a s) as [s'|s']; simpl in *; [|done].
  apply IH; [|done]. intros b s'' Hb. apply Hbody. by right.
Qed.

Lemma foreach_ext {A S : Type} (f g : A → S → LoopExit S) (l : list A) (s : S) :
  (∀ a s', f a s' = g a s') → foreach f l s = foreach g l s.
Proof.
  intros Hfg. revert s. induction l as [|a l IH]; intros s; simpl; [done|].
  rewrite Hfg. destruct (g a s); [apply IH | done].
Qed.

Lemma foreach_fmap {A B S : Type} (g : A → B) (body : B → S → LoopExit S)
    (l : list A) (s : S) :
  foreach body (g <$> l) s = foreach (λ a, body (g a)) l s.
Proof.
  revert s. induction l as [|a l IH]; intros s; simpl; [done|].
  destruct (body (g a) s); [apply IH | done].
Qed.

(** ** The resource factory, for any implementation of the resources *)

Section FactoryProperties.
Context {scalar : Type}.
Variable zero : scalar.
Variable res_init :
  capability → string → NodeHandle → Gazebo scalar → RobotHW →
  InitOutcome scalar * RobotHW.

Local Abbreviation Facade := (PalHardwareGazebo scalar).
Local Abbreviation add_pair nh model :=
  (λ p : string * string, add_resource res_init nh model p.1 p.2).

(** The three nested loops visit the declared pairs in order. *)
Lemma populate_pairs nh model transmissions (st : Facade) :
  populate res_init nh model transmissions st =
  foreach (add_pair nh model) (declared_pairs transmissions) st.
Proof.
  unfold populate, declared_pairs.
  rewrite <- foreach_bind. apply foreach_ext. intros tr_info s.
  rewrite <- foreach_bind. apply foreach_ext. intros joint_info s'.
  replace (hardware_interfaces_ joint_info ≫= λ t, [(name_ joint_info, t)])
    with ((λ t, (name_ joint_info, t)) <$> hardware_interfaces_ joint_info).
  - by rewrite foreach_fmap.
  - induction (hardware_interfaces_ joint_info); simpl; [done|]. by f_equal.
Qed.

(** [initSim] reports failure exactly when the resource loop returns:
    nothing that follows the loop has a say in the result. *)
Lemma initSim_result robot_ns nh model transmissions (st : Facade) :
  initSim zero res_init robot_ns nh model transmissions st =
  match foreach (add_pair nh model) (declared_pairs transmissions)
          (start_init transmissions st) with
  | ReturnFalse st' => (false, st')
  | Continue st' => (true, finish_init zero nh model st')
  end.
Proof. unfold initSim. by rewrite populate_pairs. Qed.

(** A pair of an unknown interface type leaves the facade as it is. *)
Lemma add_resource_unrecognized nh model joint_name iface_type (st : Facade) :
  select_resource iface_type = None →
  add_resource res_init nh model joint_name iface_type st = Continue st.
Proof. intros H. unfold add_resource. by rewrite H. Qed.

Lemma add_resource_same_sensors nh model joint_name iface_type
    (st0 st : Facade) :
  same_sensors st0 st →
  same_sensors st0
    (exit_state (add_resource res_init nh model joint_name iface_type st)).
Proof.
  intros H. unfold add_resource.
  destruct (select_resource iface_type); [|done].
  destruct (res_init _ _ _ _ _) as [[r| |what|] hw']; exact H.
Qed.

Lemma populate_same_sensors nh model transmissions (st : Facade) :
  same_sensors st
    (exit_state
       (foreach (add_pair nh model) (declared_pairs transmissions)
          (start_init transmissions st))).
Proof.
  apply (foreach_invariant (same_sensors st)).
  - intros p s _ Hs. by apply add_resource_same_sensors.
  - by repeat split.
Qed.

End FactoryProperties.

Lemma foreach_commute {A S : Type} (g : S → S) (body : A → S → LoopExit S)
    (l : list A) (s : S) :
  (∀ a s', body a (g s') = exit_map g (body a s')) →
  foreach body l (g s) = exit_map g (foreach body l s).
Proof.
  intros Hg. revert s. induction l as [|a l IH]; intros s; simpl; [done|].
  rewrite Hg. destruct (body a s) as [s'|s']; simpl; [apply IH | done].
Qed.

Lemma foreach_filter {A S : Type} (P : A → Prop) `{!∀ a, Decision (P a)}
    (body : A → S → LoopExit S) (l : list A) (s : S) :
  (∀ a s', ¬ P a → body a s' = Continue s') →
  foreach body (filter P l) s = foreach body l s.
Proof.
  intros Hskip. revert s. induction l as [|a l IH]; intros s; [done|].
  rewrite filter_cons. destruct (decide (P a)) as [Ha|Ha]; simpl.
  - destruct (body a s); [apply IH | done].
  - rewrite (Hskip a s Ha). apply IH.
Qed.

Lemma select_resource_None (iface_type : string) :
  select_resource iface_type = None ↔ iface_type ∉ recognized_interfaces.
Proof.
  unfold select_resource, recognized_interfaces.
  destruct (String.eqb_spec iface_type
              "hardware_interface/JointStateInterface") as [->|?];
    [split; [done | intros H; exfalso; apply H; repeat constructor]|].
  destruct (String.eqb_spec iface_type
              "hardware_interface/PositionJointInterface") as [->|?];
    [split; [done | intros H; exfalso; apply H; repeat constructor]|].
  destruct (String.eqb_spec iface_type
              "hardware_interface/VelocityJointInterface") as [->|?];
    [split; [done | intros H; exfalso; apply H; repeat constructor]|].
  destruct (String.eqb_spec iface_type
              "hardware_interface/EffortJointInterface") as [->|?];
    [split; [done | intros H; exfalso; apply H; repeat constructor]|].
  split; [|done]. intros _ H.
  repeat (apply elem_of_cons in H as [H|H]; [done|]).
  by apply elem_of_nil in H.
Qed.

Lemma declared_pairs_recognized_only (transmissions : list TransmissionInfo) :
  declared_pairs (recognized_only transmissions) =
  filter (λ p, is_Some (select_resource p.2)) (declared_pairs transmissions).
Proof.
  unfold declared_pairs, recognized_only.
  induction transmissions as [|tr_info trs IH]; [done|].
  cbn [fmap list_fmap mbind list_bind]. rewrite filter_app.
  cbn [fmap list_fmap mbind list_bind] in IH. rewrite IH. f_equal. clear IH.
  cbn [joints_].
  induction (joints_ tr_info) as [|joint_info js IH]; [done|].
  cbn [fmap list_fmap mbind list_bind]. rewrite filter_app.
  cbn [fmap list_fmap mbind list_bind] in IH. rewrite IH. f_equal. clear IH.
  cbn [hardware_interfaces_ name_].
  induction (hardware_interfaces_ joint_info) as [|t ts IH]; [done|].
  cbn [mbind list_bind]. rewrite filter_cons.
  rewrite (filter_app _ [_]), (filter_cons _ (_, t)), filter_nil.
  cbn [snd].
  destruct (decide (is_Some (select_resource t))); cbn [mbind list_bind app];
    by rewrite <- IH.
Qed.

(** ** The resource factory: unknown interface types and failing [init] *)

Section FactoryClaims.
Context {scalar : Type}.
Variable zero : scalar.
Variable res_init :
  capability → string → NodeHandle → Gazebo scalar → RobotHW →
  InitOutcome scalar * RobotHW.

Local Abbreviation Facade := (PalHardwareGazebo scalar).
Local Abbreviation add_pair nh model :=
  (λ p : string * string, add_resource res_init nh model p.1 p.2).

Lemma add_resource_set_transmission_infos_ nh model joint_name iface_type v
    (st : Facade) :
  add_resource res_init nh model joint_name iface_type
    (set_transmission_infos_ v st) =
  exit_map (set_transmission_infos_ v)
    (add_resource res_init nh model joint_name iface_type st).
Proof.
  unfold add_resource. destruct (select_resource iface_type); [|done].
  simpl. by destruct (res_init _ _ _ _ _) as [[r| |what|] hw'].
Qed.

Lemma parse_ft_sensor_set_transmission_infos_ nh model sensor_name v
    (st : Facade) :
  parse_ft_sensor zero nh model sensor_name (set_transmission_infos_ v st) =
  exit_map (set_transmission_infos_ v)
    (parse_ft_sensor zero nh model sensor_name st).
Proof.
  unfold parse_ft_sensor.
  by destruct (ForceTorqueSensorDefinition.gazebo_joint _).
Qed.

Lemma finish_init_set_transmission_infos_ nh model v (st : Facade) :
  finish_init zero nh model (set_transmission_infos_ v st) =
  set_transmission_infos_ v (finish_init zero nh model st).
Proof.
  unfold finish_init, parseForceTorqueSensors.
  set (st1 := initActiveWriteResources _).
  set (st2 := initActiveWriteResources _).
  assert (st1 = set_transmission_infos_ v st2) as ->.
  { subst st1 st2. by destruct (bool_param nh _). }
  rewrite (foreach_commute (set_transmission_infos_ v));
    [|intros; apply parse_ft_sensor_set_transmission_infos_].
  by destruct (foreach _ _ st2).
Qed.

(** C5. A (joint, interface type) pair whose type is not one of the four
    known identifiers creates no resource and does not stop the loop; and
    [initSim] on a transmission list gives the result it gives on the list
    with those pairs removed, so it succeeds whenever the other pairs
    do (the two facades differ in the cached transmission list only). *)
Theorem C5_unrecognized_interface_is_skipped robot_ns nh model transmissions
    (st : Facade) :
  (∀ joint_name iface_type (s : Facade),
     iface_type ∉ recognized_interfaces →
     add_resource res_init nh model joint_name iface_type s = Continue s)
  ∧ (initSim zero res_init robot_ns nh model transmissions st).1 =
    (initSim zero res_init robot_ns nh model (recognized_only transmissions)
       st).1
  ∧ set_transmission_infos_ []
      (initSim zero res_init robot_ns nh model transmissions st).2 =
    set_transmission_infos_ []
      (initSim zero res_init robot_ns nh model
         (recognized_only transmissions) st).2.
Proof.
  split.
  { intros joint_name iface_type s H.
    apply add_resource_unrecognized. by apply select_resource_None. }
  rewrite !initSim_result, declared_pairs_recognized_only.
  rewrite (foreach_filter (λ p, is_Some (select_resource p.2))).
  2:{ intros [j t] s H. apply add_resource_unrecognized.
      by apply eq_None_not_Some. }
  unfold start_init.
  rewrite !(foreach_commute (set_transmission_infos_ _));
    try (intros; apply add_resource_set_transmission_infos_).
  destruct (foreach _ _ _) as [s|s]; simpl.
  - split; [done|]. rewrite !finish_init_set_transmission_infos_.
    by destruct (finish_init _ _ _ _).
  - done.
Qed.

(** C6. Every way a resource's [init] can end other than normally or with
    the already-exists condition is fatal: whichever pair the loop has
    reached, a [std::runtime_error] or any other exception makes
    [initSim] return false at once, with the facade as it is at that
    point; the pairs that follow are not visited. *)
Theorem C6_init_failure_is_fatal robot_ns nh model transmissions
    (st st1 : Facade) done joint_name iface_type rest res :
  declared_pairs transmissions = done ++ (joint_name, iface_type) :: rest →
  foreach (add_pair nh model) done (start_init transmissions st)
    = Continue st1 →
  select_resource iface_type = Some res →
  fatal (res_init res joint_name nh model (hw st1)).1 →
  initSim zero res_init robot_ns nh model transmissions st =
  (false, set_hw (res_init res joint_name nh model (hw st1)).2 st1).
Proof.
  intros Hpairs Hdone Hres Hfatal.
  rewrite initSim_result, Hpairs.
  erewrite foreach_return; [done | exact Hdone |].
  simpl. unfold add_resource. rewrite Hres.
  by destruct (res_init _ _ _ _ _) as [[r| |what|] hw'].
Qed.
End FactoryClaims.

(** ** The sensor parsers and the registration of their handles *)

Lemma registerHandles_lookup_other {H : Type} (name : H → string)
    (hs : list H) (m : gmap string H) (k : string) :
  k ∉ name <$> hs → registerHandles name hs m !! k = m !! k.
Proof.
  revert m. induction hs as [|h hs IH]; intros m Hk; simpl; [done|].
  rewrite fmap_cons in Hk. apply not_elem_of_cons in Hk as [Hne Hk].
  rewrite IH by done. by rewrite lookup_insert_ne.
Qed.

(** Among handles of distinct names each one is found under its name. *)
Lemma registerHandles_lookup {H : Type} (name : H → string) (hs : list H)
    (m : gmap string H) (i : nat) (h : H) :
  NoDup (name <$> hs) → hs !! i = Some h →
  registerHandles name hs m !! name h = Some h.
Proof.
  revert m i. induction hs as [|h0 hs IH]; intros m i Hnd Hi; [done|].
  rewrite fmap_cons in Hnd. apply NoDup_cons in Hnd as [Hh0 Hnd].
  destruct i as [|i]; simpl in *.
  - injection Hi as ->. rewrite registerHandles_lookup_other by done.
    apply lookup_insert_eq.
  - by apply (IH _ i).
Qed.

Section SensorProperties.
Context {scalar : Type}.
Variable zero : scalar.

Local Abbreviation Facade := (PalHardwareGazebo scalar).

Lemma set_forceTorqueSensorDefinitions_id (st : Facade) :
  set_forceTorqueSensorDefinitions_ (forceTorqueSensorDefinitions_ st) st = st.
Proof. by destruct st. Qed.

Lemma ft_handle_names (defs : list (ForceTorqueSensorDefinition.t scalar)) :
  ForceTorqueSensorHandle.name <$> imap ft_handle defs =
  ForceTorqueSensorDefinition.sensorName <$> defs.
Proof.
  apply list_eq. intros i.
  rewrite !list_lookup_fmap, list_lookup_imap. by destruct (defs !! i).
Qed.

(** While the attachment joints resolve, the loop appends one definition
    per sensor id, in order. *)
Lemma parse_ft_sensors_resolved nh model ids (st : Facade) :
  (∀ id, id ∈ ids →
     is_Some (GetJoint model (fetchParam nh "force_torque" id "sensor_joint"))) →
  foreach (parse_ft_sensor zero nh model) ids st =
  Continue
    (set_forceTorqueSensorDefinitions_
       (forceTorqueSensorDefinitions_ st
          ++ (make_ft_sensor zero nh model <$> ids)) st).
Proof.
  revert st. induction ids as [|id ids IH]; intros st Hids; simpl.
  - by rewrite app_nil_r, set_forceTorqueSensorDefinitions_id.
  - unfold parse_ft_sensor at 1.
    destruct (Hids id) as [joint Hjoint]; [left|].
    cbn [make_ft_sensor new_ForceTorqueSensorDefinition
         ForceTorqueSensorDefinition.gazebo_joint
         ForceTorqueSensorDefinition.sensorJointName].
    rewrite Hjoint. rewrite IH by (intros; apply Hids; by right).
    destruct st; simpl. by rewrite <- app_assoc.
Qed.

(** At the first sensor whose joint does not resolve the parser returns
    false and keeps what it has appended. *)
Lemma parseForceTorqueSensors_fails_at nh model pre bad post (st : Facade) :
  getIds nh "force_torque" = pre ++ bad :: post →
  (∀ id, id ∈ pre →
     is_Some (GetJoint model (fetchParam nh "force_torque" id "sensor_joint"))) →
  GetJoint model (fetchParam nh "force_torque" bad "sensor_joint") = None →
  parseForceTorqueSensors zero nh model st =
  (false,
   set_forceTorqueSensorDefinitions_
     (forceTorqueSensorDefinitions_ st
        ++ (make_ft_sensor zero nh model <$> pre)) st).
Proof.
  intros Hids Hpre Hbad. unfold parseForceTorqueSensors.
  rewrite Hids.
  erewrite foreach_return;
    [done | by apply parse_ft_sensors_resolved |].
  unfold parse_ft_sensor.
  cbn [make_ft_sensor new_ForceTorqueSensorDefinition
       ForceTorqueSensorDefinition.gazebo_joint
       ForceTorqueSensorDefinition.sensorJointName].
  by rewrite Hbad.
Qed.

(** What [initSim] does to the force-torque side once the resources are
    built, in terms of the parser's result. *)
Lemma finish_init_force_torque nh model (st : Facade) new b :
  (∀ s : Facade,
     parseForceTorqueSensors zero nh model s =
     (b, set_forceTorqueSensorDefinitions_
           (forceTorqueSensorDefinitions_ s ++ new) s)) →
  forceTorqueSensorDefinitions_ (finish_init zero nh model st) =
    forceTorqueSensorDefinitions_ st ++ new
  ∧ ft_sensor_interface_ (finish_init zero nh model st) =
    registerHandles ForceTorqueSensorHandle.name
      (imap ft_handle (forceTorqueSensorDefinitions_ st ++ new))
      (ft_sensor_interface_ st).
Proof.
  intros Hparse. unfold finish_init. rewrite Hparse.
  by destruct (bool_param nh _).
Qed.

Variable res_init :
  capability → string → NodeHandle → Gazebo scalar → RobotHW →
  InitOutcome scalar * RobotHW.

(** [initSim] never runs the inertial parser: whatever the configuration
    declares, the inertial definitions are those the facade had. *)
Lemma initSim_imuSensorDefinitions robot_ns nh model transmissions
    (st : Facade) :
  imuSensorDefinitions_
    (initSim zero res_init robot_ns nh model transmissions st).2 =
  imuSensorDefinitions_ st.
Proof.
  rewrite initSim_result.
  pose proof (populate_same_sensors res_init nh model transmissions st)
    as (_ & _ & _ & Himu & _).
  destruct (foreach _ _ _) as [s|s]; simpl in *; [|done].
  rewrite <- Himu. unfold finish_init, parseForceTorqueSensors.
  assert (∀ ids (s0 : Facade),
            imuSensorDefinitions_
              (exit_state (foreach (parse_ft_sensor zero nh model) ids s0)) =
            imuSensorDefinitions_ s0) as Hparse.
  { intros ids s0.
    apply (foreach_invariant
             (λ s1 : Facade,
                imuSensorDefinitions_ s1 = imuSensorDefinitions_ s0));
      [|done].
    intros id s1 _ Hs1. unfold parse_ft_sensor.
    by destruct (ForceTorqueSensorDefinition.gazebo_joint _). }
  cbn [imuSensorDefinitions_ set_hw set_imu_sensor_interface_
       set_ft_sensor_interface_].
  match goal with
  | |- context [foreach ?b ?l ?s0] =>
      specialize (Hparse l s0); destruct (foreach b l s0)
  end; simpl in *; rewrite Hparse; by destruct (bool_param nh _).
Qed.

(** C10. When the parser stops at a sensor whose attachment joint does
    not resolve, it returns false and undoes nothing: the definitions of
    the sensors declared before it are in the list, that of the failing
    sensor and of those after it are not. An [initSim] that gets past its
    resource loop then registers a handle for each definition kept,
    pointing at the buffers of that definition (sensor names being
    distinct, as keys of one parameter struct are). *)
Theorem C10_force_torque_failure_keeps_earlier_definitions
    robot_ns nh model transmissions (st : Facade) pre bad post :
  getIds nh "force_torque" = pre ++ bad :: post →
  (∀ id, id ∈ pre →
     is_Some (GetJoint model (fetchParam nh "force_torque" id "sensor_joint"))) →
  GetJoint model (fetchParam nh "force_torque" bad "sensor_joint") = None →
  NoDup ((ForceTorqueSensorDefinition.sensorName
            <$> forceTorqueSensorDefinitions_ st) ++ pre) →
  let kept :=
    forceTorqueSensorDefinitions_ st
      ++ (make_ft_sensor zero nh model <$> pre) in
  parseForceTorqueSensors zero nh model st =
    (false, set_forceTorqueSensorDefinitions_ kept st)
  ∧ ((initSim zero res_init robot_ns nh model transmissions st).1 = true →
     let st' := (initSim zero res_init robot_ns nh model transmissions st).2 in
     forceTorqueSensorDefinitions_ st' = kept
     ∧ ∀ i ft,
         kept !! i = Some ft →
         ft_sensor_interface_ st'
           !! ForceTorqueSensorDefinition.sensorName ft =
         Some (ft_handle i ft)).
Proof.
  intros Hids Hpre Hbad Hnames kept.
  pose proof (λ s, parseForceTorqueSensors_fails_at nh model pre bad post s
                     Hids Hpre Hbad) as Hparse.
  split; [apply Hparse|].
  rewrite initSim_result.
  pose proof (populate_same_sensors res_init nh model transmissions st)
    as (Hiface & _ & Hdefs & _).
  destruct (foreach _ _ _) as [s|s]; cbn [fst snd]; [intros _|done].
  simpl in Hiface, Hdefs.
  destruct (finish_init_force_torque nh model s _ _ Hparse) as [-> ->].
  rewrite Hdefs, Hiface. split; [done|]. intros i ft Hi.
  change (ForceTorqueSensorDefinition.sensorName ft)
    with (ForceTorqueSensorHandle.name (ft_handle i ft)).
  apply registerHandles_lookup with i.
  - rewrite ft_handle_names. subst kept.
    rewrite fmap_app, <- list_fmap_compose.
    replace (ForceTorqueSensorDefinition.sensorName
               ∘ make_ft_sensor zero nh model <$> pre) with pre; [done|].
    clear. induction pre as [|id pre IH]; [done|]. simpl. by f_equal.
  - rewrite list_lookup_imap. fold kept. by rewrite Hi.
Qed.

End SensorProperties.

(** ** The cycle: calling a method on each resource of a pointer list *)

Section CallEach.
Context {scalar : Type}.
Variable m : Method.
Variable f :
  Resource scalar → Time → Duration → bool → Gazebo scalar →
  Resource scalar * Gazebo scalar.
Variables (time : Time) (period : Duration) (stop : bool).

Local Abbreviation run ptrs rs world :=
  (call_each m f time period stop ptrs rs world).
Local Abbreviation call_to p :=
  {| method := m; target := p; time_ := time; period_ := period;
     e_stop := stop |}.

Ltac step_call_each p rs world :=
  simpl;
  let r := fresh "r" in
  let Hp := fresh "Hp" in
  destruct (rs !! p) as [r|] eqn:Hp;
  [ let r' := fresh "r'" in
    let w' := fresh "w'" in
    let Hf := fresh "Hf" in
    let Hrun := fresh "Hrun" in
    destruct (f r time period stop world) as [r' w'] eqn:Hf;
    destruct (call_each m f time period stop _ (<[p := r']> rs) w')
      as [[? ?] ?] eqn:Hrun
  | ].

Lemma call_each_length ptrs rs world :
  length (run ptrs rs world).1.1 = length rs.
Proof.
  revert rs world. induction ptrs as [|p ptrs IH]; intros rs world; [done|].
  step_call_each p rs world; [|apply IH].
  specialize (IH (<[p := r']> rs) w'). rewrite Hrun in IH. simpl in *.
  by rewrite IH, length_insert.
Qed.

(** One call per pointer that designates a resource, in the order of the
    list, each with the time, the period and the flag given. *)
Lemma call_each_calls ptrs rs world :
  (run ptrs rs world).2 =
  (λ p, call_to p) <$> filter (λ p, p < length rs) ptrs.
Proof.
  revert rs world. induction ptrs as [|p ptrs IH]; intros rs world; [done|].
  rewrite filter_cons. step_call_each p rs world.
  - specialize (IH (<[p := r']> rs) w'). rewrite Hrun in IH. simpl in *.
    rewrite length_insert in IH. apply lookup_lt_Some in Hp.
    rewrite decide_True by done. by rewrite IH.
  - apply lookup_ge_None in Hp. rewrite decide_False by lia. apply IH.
Qed.

(** An object no pointer of the list designates is left as it is. *)
Lemma call_each_untouched ptrs rs world i :
  i ∉ ptrs → (run ptrs rs world).1.1 !! i = rs !! i.
Proof.
  revert rs world. induction ptrs as [|p ptrs IH]; intros rs world Hi; [done|].
  apply not_elem_of_cons in Hi as [Hne Hi].
  step_call_each p rs world; [|by apply IH].
  specialize (IH (<[p := r']> rs) w' Hi). rewrite Hrun in IH. simpl in *.
  by rewrite IH, list_lookup_insert_ne.
Qed.

(** An object designated once is the result of one call on it. *)
Lemma call_each_once ptrs rs world i r :
  NoDup ptrs → i ∈ ptrs → rs !! i = Some r →
  ∃ w, (run ptrs rs world).1.1 !! i = Some (f r time period stop w).1.
Proof.
  revert rs world.
  induction ptrs as [|p ptrs IH]; intros rs world Hnd Hi Hr.
  { by apply elem_of_nil in Hi. }
  apply NoDup_cons in Hnd as [Hp' Hnd].
  apply elem_of_cons in Hi as [->|Hi].
  - pose proof (call_each_untouched ptrs) as Hrest.
    step_call_each p rs world; [|congruence].
    specialize (Hrest (<[p := r']> rs) w' p Hp'). rewrite Hrun in Hrest.
    simplify_eq. simpl in *. exists world.
    rewrite Hrest, list_lookup_insert_eq by (by eapply lookup_lt_Some).
    by rewrite Hf.
  - assert (p ≠ i) as Hne by (intros ->; done).
    step_call_each p rs world; [|by apply IH].
    destruct (IH (<[p := r']> rs) w' Hnd Hi) as [w Hw].
    { by rewrite list_lookup_insert_ne. }
    rewrite Hrun in Hw. by exists w.
Qed.

(** What every call keeps of an object, the pass keeps of all of them. *)
Lemma call_each_preserves {K : Type} (g : Resource scalar → K) ptrs rs world :
  (∀ r w, g (f r time period stop w).1 = g r) →
  g <$> (run ptrs rs world).1.1 = g <$> rs.
Proof.
  intros Hg. revert rs world.
  induction ptrs as [|p ptrs IH]; intros rs world; [done|].
  step_call_each p rs world; [|apply IH].
  specialize (IH (<[p := r']> rs) w'). rewrite Hrun in IH. simpl in *.
  rewrite IH, list_fmap_insert. apply list_insert_id.
  rewrite list_lookup_fmap, Hp. simpl. f_equal.
  specialize (Hg r world). by rewrite Hf in Hg.
Qed.

(** The contract of a method that commands an actuation channel: it
    keeps the object bound to its channel and writes to no other. *)
Hypothesis f_channel :
  ∀ r w, channel (f r time period stop w).1 = channel r.
Hypothesis f_footprint :
  ∀ r w c, c ≠ channel r →
    external_target (f r time period stop w).2 c = external_target w c.

Lemma call_each_channels ptrs rs world :
  channel <$> (run ptrs rs world).1.1 = channel <$> rs.
Proof. by apply call_each_preserves. Qed.

(** A channel none of the designated objects commands keeps its value. *)
Lemma call_each_footprint ptrs rs world c :
  (∀ p r, p ∈ ptrs → rs !! p = Some r → channel r ≠ c) →
  external_target (run ptrs rs world).1.2 c = external_target world c.
Proof.
  revert rs world. induction ptrs as [|p ptrs IH]; intros rs world Hc; [done|].
  step_call_each p rs world.
  - specialize (IH (<[p := r']> rs) w'). rewrite Hrun in IH. simpl in *.
    rewrite IH.
    + specialize (f_footprint r world c). rewrite Hf in f_footprint.
      apply f_footprint. intros ->. by apply (Hc p r); [left| |].
    + intros q rq Hq Hrq. destruct (decide (p = q)) as [->|Hne].
      * rewrite list_lookup_insert_eq in Hrq by (by eapply lookup_lt_Some).
        injection Hrq as <-.
        specialize (f_channel r world). rewrite Hf in f_channel.
        simpl in f_channel. rewrite f_channel. by apply (Hc q r); [left|].
      * rewrite list_lookup_insert_ne in Hrq by done.
        by apply (Hc q rq); [right|].
  - apply IH. intros q rq Hq. apply Hc. by right.
Qed.

End CallEach.

(** ** The cycle of the facade, for any implementation of the resources *)

Lemma filter_all {A : Type} (P : A → Prop) `{!∀ a, Decision (P a)}
    (l : list A) :
  (∀ a, a ∈ l → P a) → filter P l = l.
Proof.
  induction l as [|a l IH]; intros Hall; [done|].
  rewrite filter_cons_True by (apply Hall; left).
  f_equal. apply IH. intros b Hb. apply Hall. by right.
Qed.

Section CycleClaims.
Context {scalar : Type}.
Variable zero : scalar.
Variable res_init :
  capability → string → NodeHandle → Gazebo scalar → RobotHW →
  InitOutcome scalar * RobotHW.
Variable res_read res_write :
  Resource scalar → Time → Duration → bool → Gazebo scalar →
  Resource scalar * Gazebo scalar.

Local Abbreviation Facade := (PalHardwareGazebo scalar).

(** The parser only appends: the definitions it adds and its verdict do
    not depend on the facade it starts from. *)
Lemma parse_ft_sensors_appends nh model ids :
  ∃ new (ok : bool), ∀ s : Facade,
    foreach (parse_ft_sensor zero nh model) ids s =
    (if ok then Continue else ReturnFalse)
      (set_forceTorqueSensorDefinitions_
         (forceTorqueSensorDefinitions_ s ++ new) s).
Proof.
  induction ids as [|id ids (new & ok & IH)].
  { exists [], true. intros s. simpl.
    by rewrite app_nil_r, set_forceTorqueSensorDefinitions_id. }
  destruct (ForceTorqueSensorDefinition.gazebo_joint
              (make_ft_sensor zero nh model id)) as [joint|] eqn:Hjoint.
  - exists (make_ft_sensor zero nh model id :: new), ok. intros s. simpl.
    unfold parse_ft_sensor at 1. rewrite Hjoint, IH.
    destruct ok; destruct s; simpl; by rewrite <- app_assoc.
  - exists [], false. intros s. simpl. unfold parse_ft_sensor at 1.
    by rewrite Hjoint, app_nil_r, set_forceTorqueSensorDefinitions_id.
Qed.

Lemma parseForceTorqueSensors_appends nh model :
  ∃ new b, ∀ s : Facade,
    parseForceTorqueSensors zero nh model s =
    (b, set_forceTorqueSensorDefinitions_
          (forceTorqueSensorDefinitions_ s ++ new) s).
Proof.
  destruct (parse_ft_sensors_appends nh model (getIds nh "force_torque"))
    as (new & ok & H).
  exists new, ok. intros s. unfold parseForceTorqueSensors.
  rewrite H. by destruct ok.
Qed.

(** [initSim] keeps the force-torque definitions it finds and appends to
    them. *)
Lemma initSim_forceTorqueSensorDefinitions robot_ns nh model transmissions
    (st : Facade) :
  forceTorqueSensorDefinitions_ st `prefix_of`
  forceTorqueSensorDefinitions_
    (initSim zero res_init robot_ns nh model transmissions st).2.
Proof.
  rewrite initSim_result.
  pose proof (populate_same_sensors res_init nh model transmissions st)
    as (_ & _ & Hdefs & _).
  destruct (foreach _ _ _) as [s|s]; simpl in Hdefs; cbn [fst snd].
  - destruct (parseForceTorqueSensors_appends nh model) as (new & b & Hparse).
    destruct (finish_init_force_torque zero nh model s _ _ Hparse) as [-> _].
    rewrite Hdefs. by apply prefix_app_r.
  - by rewrite Hdefs.
Qed.

(** C8. One call of [readSim] calls [read] once on every resource of
    [rw_resources_], in order, and leaves in each object the result of
    that one call; it then stores in each force-torque definition the
    wrench its attachment joint has in the simulation, and in each
    inertial definition the orientation, angular velocity and linear
    acceleration of its source. No definition is added or dropped.
    Outside of [readSim] the buffers are not written: [writeSim] leaves
    both definition vectors as they are, and [initSim] only appends
    force-torque definitions. *)
Theorem C8_read_refreshes_every_buffer_once time period (st : Facade) world :
  let st' := (readSim res_read time period st world).1.1 in
  let world' := (readSim res_read time period st world).1.2 in
  (readSim res_read time period st world).2 =
    (λ i, {| method := read; target := i; time_ := time; period_ := period;
             e_stop := e_stop_active_ st |})
    <$> seq 0 (length (rw_resources_ st))
  ∧ (∀ i r, rw_resources_ st !! i = Some r →
       ∃ w, rw_resources_ st' !! i =
            Some (res_read r time period (e_stop_active_ st) w).1)
  ∧ length (forceTorqueSensorDefinitions_ st') =
    length (forceTorqueSensorDefinitions_ st)
  ∧ (∀ i ft p joint,
       forceTorqueSensorDefinitions_ st !! i = Some ft →
       ForceTorqueSensorDefinition.gazebo_joint ft = Some p →
       joints world' !! p = Some joint →
       ∃ ft',
         forceTorqueSensorDefinitions_ st' !! i = Some ft'
         ∧ ForceTorqueSensorDefinition.sensorName ft' =
           ForceTorqueSensorDefinition.sensorName ft
         ∧ ForceTorqueSensorDefinition.force ft' =
           (Vector3.x (body2Force (GetForceTorque joint)),
            Vector3.y (body2Force (GetForceTorque joint)),
            Vector3.z (body2Force (GetForceTorque joint)))
         ∧ ForceTorqueSensorDefinition.torque ft' =
           (Vector3.x (body2Torque (GetForceTorque joint)),
            Vector3.y (body2Torque (GetForceTorque joint)),
            Vector3.z (body2Torque (GetForceTorque joint))))
  ∧ length (imuSensorDefinitions_ st') = length (imuSensorDefinitions_ st)
  ∧ (∀ i imu p sensor,
       imuSensorDefinitions_ st !! i = Some imu →
       ImuSensorDefinition.gazebo_imu_sensor imu = Some p →
       sensors world' !! p = Some (IsImuSensor sensor) →
       ∃ imu',
         imuSensorDefinitions_ st' !! i = Some imu'
         ∧ ImuSensorDefinition.sensorName imu' =
           ImuSensorDefinition.sensorName imu
         ∧ ImuSensorDefinition.orientation imu' =
           (Quaternion.x (GetOrientation sensor),
            Quaternion.y (GetOrientation sensor),
            Quaternion.z (GetOrientation sensor),
            Quaternion.w (GetOrientation sensor))
         ∧ ImuSensorDefinition.base_ang_vel imu' =
           (Vector3.x (GetAngularVelocity sensor),
            Vector3.y (GetAngularVelocity sensor),
            Vector3.z (GetAngularVelocity sensor))
         ∧ ImuSensorDefinition.linear_acceleration imu' =
           (Vector3.x (GetLinearAcceleration sensor),
            Vector3.y (GetLinearAcceleration sensor),
            Vector3.z (GetLinearAcceleration sensor)))
  ∧ forceTorqueSensorDefinitions_
      (writeSim res_write time period st world).1.1 =
    forceTorqueSensorDefinitions_ st
  ∧ imuSensorDefinitions_ (writeSim res_write time period st world).1.1 =
    imuSensorDefinitions_ st
  ∧ (∀ robot_ns nh model transmissions,
       forceTorqueSensorDefinitions_ st `prefix_of`
       forceTorqueSensorDefinitions_
         (initSim zero res_init robot_ns nh model transmissions st).2
       ∧ imuSensorDefinitions_
           (initSim zero res_init robot_ns nh model transmissions st).2 =
         imuSensorDefinitions_ st).
Proof.
  intros st' world'.
  pose proof (call_each_calls read res_read time period (e_stop_active_ st)
                (seq 0 (length (rw_resources_ st))) (rw_resources_ st) world)
    as Hcalls.
  pose proof (λ i r, call_each_once read res_read time period
                (e_stop_active_ st) (seq 0 (length (rw_resources_ st)))
                (rw_resources_ st) world i r (NoDup_seq _ _)) as Honce.
  subst st' world'. unfold readSim, writeSim.
  destruct (call_each read _ _ _ _ _ _ _) as [[rs world'] calls].
  destruct (call_each write _ _ _ _ _ _ _) as [[rs2 world2] calls2].
  cbn [fst snd] in *.
  split; [|split; [|split; [|split; [|split; [|split; [|split; [|split]]]]]]].
  - rewrite Hcalls. f_equal. apply filter_all.
    intros i Hi. apply elem_of_seq in Hi. lia.
  - intros i r Hr. apply Honce; [|done].
    apply elem_of_seq. apply lookup_lt_Some in Hr. lia.
  - simpl. by rewrite length_fmap.
  - intros i ft p joint Hft Hp Hjoint. simpl.
    exists (read_force_torque world' ft).
    rewrite list_lookup_fmap, Hft. split; [done|].
    unfold read_force_torque. rewrite Hp. simpl. by rewrite Hjoint.
  - simpl. by rewrite length_fmap.
  - intros i imu p sensor Himu Hp Hsensor. simpl.
    exists (read_imu world' imu).
    rewrite list_lookup_fmap, Himu. split; [done|].
    unfold read_imu, imu_source. rewrite Hp. simpl. by rewrite Hsensor.
  - done.
  - done.
  - intros robot_ns nh model transmissions. split.
    + apply initSim_forceTorqueSensorDefinitions.
    + apply initSim_imuSensorDefinitions.
Qed.

(** Definitions bound to one inertial source hold the same values after
    [readSim]. *)
Lemma readSim_same_source time period (st : Facade) world i j imu1 imu2 :
  let st' := (readSim res_read time period st world).1.1 in
  imuSensorDefinitions_ st !! i = Some imu1 →
  imuSensorDefinitions_ st !! j = Some imu2 →
  ImuSensorDefinition.gazebo_imu_sensor imu1 =
    ImuSensorDefinition.gazebo_imu_sensor imu2 →
  is_Some (ImuSensorDefinition.gazebo_imu_sensor imu1
           ≫= imu_source (readSim res_read time period st world).1.2) →
  ∃ imu1' imu2',
    imuSensorDefinitions_ st' !! i = Some imu1'
    ∧ imuSensorDefinitions_ st' !! j = Some imu2'
    ∧ ImuSensorDefinition.orientation imu1' =
      ImuSensorDefinition.orientation imu2'
    ∧ ImuSensorDefinition.base_ang_vel imu1' =
      ImuSensorDefinition.base_ang_vel imu2'
    ∧ ImuSensorDefinition.linear_acceleration imu1' =
      ImuSensorDefinition.linear_acceleration imu2'.
Proof.
  unfold readSim.
  destruct (call_each read _ _ _ _ _ _ _) as [[rs world'] calls].
  cbn [fst snd]. intros H1 H2 Hsrc [sensor Hsensor].
  exists (read_imu world' imu1), (read_imu world' imu2). simpl.
  rewrite !list_lookup_fmap, H1, H2. do 2 (split; [done|]).
  unfold read_imu. by rewrite <- Hsrc, Hsensor.
Qed.

(** Every definition [parseIMUSensors] appends is bound to the sensor
    ["imu_sensor"], whatever its id. *)
Lemma parseIMUSensors_one_source nh model (st : Facade) :
  Forall (λ imu, ImuSensorDefinition.gazebo_imu_sensor imu = Some "imu_sensor")
    (imuSensorDefinitions_ st) →
  Forall (λ imu, ImuSensorDefinition.gazebo_imu_sensor imu = Some "imu_sensor")
    (imuSensorDefinitions_ (parseIMUSensors zero nh model st).2).
Proof.
  intros Hst. unfold parseIMUSensors.
  pose proof (foreach_invariant
    (λ s : Facade,
       Forall (λ imu, ImuSensorDefinition.gazebo_imu_sensor imu
                      = Some "imu_sensor") (imuSensorDefinitions_ s))
    (parse_imu_sensor zero nh model) (getIds nh "imu") st) as Hinv.
  assert (Forall (λ imu, ImuSensorDefinition.gazebo_imu_sensor imu
                         = Some "imu_sensor")
            (imuSensorDefinitions_
               (exit_state
                  (foreach (parse_imu_sensor zero nh model) (getIds nh "imu")
                     st)))) as Hexit.
  { apply Hinv; [|done]. intros id s' _ Hs'.
    unfold parse_imu_sensor, GetImuSensor.
    destruct (sensors model !! "imu_sensor") as [[?|]|]; simpl; try done.
    apply Forall_app. split; [done|]. by repeat constructor. }
  by destruct (foreach _ _ _).
Qed.


(** Distinct resources of a facade that has one resource per channel
    command distinct channels. *)
Lemma distinct_channels (rs : list (Resource scalar)) i j ri rj :
  NoDup (channel <$> rs) → rs !! i = Some ri → rs !! j = Some rj →
  i ≠ j → channel rj ≠ channel ri.
Proof.
  intros Hnd Hi Hj Hne Heq. apply Hne.
  apply (NoDup_lookup _ i j (channel ri) Hnd);
    rewrite list_lookup_fmap; [by rewrite Hi | rewrite Hj; simpl; by rewrite Heq].
Qed.

(** C7. [writeSim] calls [write] on the resources the active-writer set
    designates, once per entry and in order, and on no other. A resource
    outside the set gets no call; its object, and with it its command
    buffer, is as before; and the channel it commands in the simulation
    keeps its value. The last point rests on what a [write] may touch
    (its own channel only) and on the facade holding one resource per
    channel. *)
Theorem C7_inactive_resource_is_not_written time period (st : Facade)
    world i r :
  (∀ r0 t p e w, channel (res_write r0 t p e w).1 = channel r0) →
  (∀ r0 t p e w c, c ≠ channel r0 →
     external_target (res_write r0 t p e w).2 c = external_target w c) →
  NoDup (channel <$> rw_resources_ st) →
  rw_resources_ st !! i = Some r →
  i ∉ active_w_resources_rt_ st →
  let st' := (writeSim res_write time period st world).1.1 in
  let world' := (writeSim res_write time period st world).1.2 in
  let calls := (writeSim res_write time period st world).2 in
  calls =
    (λ p, {| method := write; target := p; time_ := time; period_ := period;
             e_stop := e_stop_active_ st |})
    <$> filter (λ p, p < length (rw_resources_ st))
          (active_w_resources_rt_ st)
  ∧ (∀ c, c ∈ calls → target c ≠ i)
  ∧ rw_resources_ st' !! i = Some r
  ∧ external_target world' (channel r) = external_target world (channel r).
Proof.
  intros Hchannel Hfootprint Hnd Hr Hi st' world' calls.
  pose proof (call_each_calls write res_write time period (e_stop_active_ st)
                (active_w_resources_rt_ st) (rw_resources_ st) world)
    as Hcalls.
  pose proof (call_each_untouched write res_write time period
                (e_stop_active_ st) (active_w_resources_rt_ st)
                (rw_resources_ st) world i Hi) as Hsame.
  pose proof (call_each_footprint write res_write time period
                (e_stop_active_ st)
                (λ r0 w, Hchannel r0 time period (e_stop_active_ st) w)
                (λ r0 w, Hfootprint r0 time period (e_stop_active_ st) w)
                (active_w_resources_rt_ st) (rw_resources_ st) world
                (channel r)) as Hkeep.
  subst st' world' calls. unfold writeSim.
  destruct (call_each write _ _ _ _ _ _ _) as [[rs world'] calls].
  cbn [fst snd] in *. subst calls. repeat split.
  - intros c Hc. apply list_elem_of_fmap in Hc as (p & -> & Hp).
    apply list_elem_of_filter in Hp as [_ Hp]. simpl. by intros ->.
  - simpl. by rewrite Hsame.
  - apply Hkeep. intros p rp Hp Hrp.
    apply (distinct_channels (rw_resources_ st) i p); try done.
    by intros ->.
Qed.

End CycleClaims.

(** ** The resources of the specification *)

Section SpecResourceProperties.
Context {scalar : Type}.
Variable zero : scalar.

Local Abbreviation Facade := (PalHardwareGazebo scalar).

Lemma command_target_apply_command (res : capability) (value : scalar)
    (j : Joint scalar) :
  res ≠ JointState →
  command_target res (apply_command res value j) = Some value.
Proof. by destruct res. Qed.

Lemma command_target_apply_command_ne (res res' : capability)
    (value : scalar) (j : Joint scalar) :
  res ≠ res' →
  command_target res (apply_command res' value j) = command_target res j.
Proof. by destruct res, res'. Qed.

(** [write] returns the object as it got it. *)
Lemma Resource_write_object (r : Resource scalar) t p e w :
  (Resource_write zero r t p e w).1 = r.
Proof. done. Qed.

(** [write] touches the channel of its resource only. *)
Lemma Resource_write_footprint (r : Resource scalar) t p e w c :
  c ≠ channel r →
  external_target (Resource_write zero r t p e w).2 c = external_target w c.
Proof.
  destruct c as [q res]. unfold channel, external_target. simpl. intros Hc.
  destruct (decide (sim_joint_ r = q)) as [<-|Hq].
  - rewrite lookup_alter_eq.
    destruct (joints w !! sim_joint_ r) as [j|]; [simpl|done].
    apply command_target_apply_command_ne. congruence.
  - by rewrite lookup_alter_ne.
Qed.

(** [write] applies the command buffer, or the safe value of the variant
    when the emergency stop is asserted. *)
Lemma Resource_write_applies (r : Resource scalar) t p (e : bool) w :
  is_Some (joints w !! sim_joint_ r) → res_variant r ≠ JointState →
  external_target (Resource_write zero r t p e w).2 (channel r) =
  Some (if e then safe_value zero r else cmd_ r).
Proof.
  intros [j Hj] Hres. unfold channel, external_target. simpl.
  rewrite lookup_alter_eq, Hj. simpl.
  by apply command_target_apply_command.
Qed.

Lemma Resource_write_joints (r : Resource scalar) t p e w q :
  is_Some (joints (Resource_write zero r t p e w).2 !! q) ↔
  is_Some (joints w !! q).
Proof.
  simpl. destruct (decide (sim_joint_ r = q)) as [<-|Hq].
  - rewrite lookup_alter_eq. by rewrite fmap_is_Some.
  - by rewrite lookup_alter_ne.
Qed.

Section Write.
Variables (time : Time) (period : Duration) (stop : bool).

Local Abbreviation run ptrs rs world :=
  (call_each write (Resource_write zero) time period stop ptrs rs world).

Lemma call_each_write_joints ptrs (rs : list (Resource scalar)) world q :
  is_Some (joints (run ptrs rs world).1.2 !! q) ↔
  is_Some (joints world !! q).
Proof.
  revert rs world. induction ptrs as [|p ptrs IH]; intros rs world; [done|].
  cbn [call_each]. destruct (rs !! p) as [r|]; [|apply IH].
  rewrite <- (Resource_write_joints r time period stop world q).
  destruct (Resource_write zero r time period stop world) as [r' w'].
  specialize (IH (<[p := r']> rs) w').
  by destruct (call_each _ _ _ _ _ _ _ _) as [[? ?] ?].
Qed.

(** After the pass the channel of every resource designated holds what
    the [write] of that resource applies. *)
Lemma call_each_write_applies ptrs (rs : list (Resource scalar)) world i r :
  NoDup (channel <$> rs) → i ∈ ptrs → rs !! i = Some r →
  res_variant r ≠ JointState → is_Some (joints world !! sim_joint_ r) →
  external_target (run ptrs rs world).1.2 (channel r) =
  Some (if stop then safe_value zero r else cmd_ r).
Proof.
  intros Hnd Hi Hr Hres. revert world Hi.
  induction ptrs as [|p ptrs IH]; intros world Hi Hjoint.
  { by apply elem_of_nil in Hi. }
  cbn [call_each].
  destruct (decide (i ∈ ptrs)) as [Hin|Hnotin].
  - destruct (rs !! p) as [rp|] eqn:Hp; [|by apply IH].
    pose proof (Resource_write_joints rp time period stop world
                  (sim_joint_ r)) as Hjoints.
    destruct (Resource_write zero rp time period stop world)
      as [r' w'] eqn:Hw.
    injection Hw as <- <-. rewrite list_insert_id by done.
    specialize (IH _ Hin (proj2 Hjoints Hjoint)).
    by destruct (call_each _ _ _ _ _ _ _ _) as [[? ?] ?].
  - apply elem_of_cons in Hi as [->|Hi]; [|done]. rewrite Hr.
    pose proof (Resource_write_applies r time period stop world Hjoint Hres)
      as Happlied.
    destruct (Resource_write zero r time period stop world)
      as [r' w'] eqn:Hw.
    injection Hw as <- <-. rewrite list_insert_id by done.
    pose proof (call_each_footprint write (Resource_write zero) time period
                  stop
                  (λ r0 w, f_equal channel
                             (Resource_write_object r0 time period stop w))
                  (λ r0 w, Resource_write_footprint r0 time period stop w)
                  ptrs rs
                  (Resource_write zero r time period stop world).2
                  (channel r)) as Hkeep.
    destruct (call_each _ _ _ _ _ _ _ _) as [[? ?] ?]. cbn [fst snd] in *.
    rewrite Hkeep; [done|]. intros q rq Hq Hrq.
    apply (distinct_channels rs p q); try done. by intros ->.
Qed.
End Write.

Variable res_init :
  capability → string → NodeHandle → Gazebo scalar → RobotHW →
  InitOutcome scalar * RobotHW.
Variable res_read :
  Resource scalar → Time → Duration → bool → Gazebo scalar →
  Resource scalar * Gazebo scalar.

(** Past the resource loop [initSim] clears the emergency stop and keeps
    the resources it has built. *)
Lemma finish_init_fields nh model (st : Facade) :
  e_stop_active_ (finish_init zero nh model st) = false
  ∧ rw_resources_ (finish_init zero nh model st) = rw_resources_ st.
Proof.
  destruct (parseForceTorqueSensors_appends zero nh model)
    as (new & b & Hparse).
  unfold finish_init. rewrite Hparse. by destruct (bool_param nh _).
Qed.

(** C9. The facade has one emergency-stop flag. An [initSim] that
    succeeds leaves it false. [readSim] calls [read] once on every
    resource and [writeSim] calls [write] once per entry of the
    active-writer set, each call with the current value of the flag, and
    the object a [read] leaves is the result of the call with that value;
    neither changes the flag nor the active-writer set. With the flag
    asserted, the channel of every active writer holds, after [writeSim],
    the safe value of its variant (the position last read for a position
    resource, zero for a velocity or effort resource), whatever its
    command buffer holds. *)
Theorem C9_emergency_stop_forces_safe_value
    robot_ns nh model transmissions (st0 : Facade)
    time period (st : Facade) world :
  ((initSim zero res_init robot_ns nh model transmissions st0).1 = true →
   e_stop_active_
     (initSim zero res_init robot_ns nh model transmissions st0).2 = false)
  ∧ (readSim res_read time period st world).2 =
    (λ i, {| method := read; target := i; time_ := time; period_ := period;
             e_stop := e_stop_active_ st |})
    <$> seq 0 (length (rw_resources_ st))
  ∧ (∀ i r, rw_resources_ st !! i = Some r →
       ∃ w, rw_resources_ (readSim res_read time period st world).1.1 !! i =
            Some (res_read r time period (e_stop_active_ st) w).1)
  ∧ (writeSim (Resource_write zero) time period st world).2 =
    (λ p, {| method := write; target := p; time_ := time; period_ := period;
             e_stop := e_stop_active_ st |})
    <$> filter (λ p, p < length (rw_resources_ st))
          (active_w_resources_rt_ st)
  ∧ e_stop_active_ (readSim res_read time period st world).1.1 =
    e_stop_active_ st
  ∧ e_stop_active_ (writeSim (Resource_write zero) time period st world).1.1 =
    e_stop_active_ st
  ∧ active_w_resources_rt_
      (writeSim (Resource_write zero) time period st world).1.1 =
    active_w_resources_rt_ st
  ∧ (e_stop_active_ st = true →
     NoDup (channel <$> rw_resources_ st) →
     ∀ i r,
       i ∈ active_w_resources_rt_ st →
       rw_resources_ st !! i = Some r →
       res_variant r ≠ JointState →
       is_Some (joints world !! sim_joint_ r) →
       external_target
         (writeSim (Resource_write zero) time period st world).1.2
         (channel r) =
       Some (safe_value zero r)).
Proof.
  split.
  { rewrite initSim_result.
    destruct (foreach _ _ _) as [s|s]; cbn [fst snd]; [intros _|done].
    apply finish_init_fields. }
  pose proof (call_each_calls read res_read time period (e_stop_active_ st)
                (seq 0 (length (rw_resources_ st))) (rw_resources_ st) world)
    as Hread.
  pose proof (λ i r, call_each_once read res_read time period
                (e_stop_active_ st) (seq 0 (length (rw_resources_ st)))
                (rw_resources_ st) world i r (NoDup_seq _ _)) as Honce.
  pose proof (call_each_calls write (Resource_write zero) time period
                (e_stop_active_ st) (active_w_resources_rt_ st)
                (rw_resources_ st) world) as Hwrite.
  pose proof (call_each_write_applies time period (e_stop_active_ st)
                (active_w_resources_rt_ st) (rw_resources_ st) world)
    as Hsafe.
  unfold readSim, writeSim.
  destruct (call_each read _ _ _ _ _ _ _) as [[rs1 world1] calls1].
  destruct (call_each write _ _ _ _ _ _ _) as [[rs2 world2] calls2].
  cbn [fst snd] in *. subst calls1 calls2.
  split; [|split; [|split; [|split; [|split; [|split]]]]]; try done.
  - f_equal. apply filter_all. intros i Hi. apply elem_of_seq in Hi. lia.
  - intros i r Hr. apply Honce; [|done].
    apply elem_of_seq. apply lookup_lt_Some in Hr. lia.
  - intros Hstop Hnd i r Hi Hr Hres Hjoint.
    rewrite (Hsafe i r Hnd Hi Hr Hres Hjoint). by rewrite Hstop.
Qed.

End SpecResourceProperties.

(** ** The resource factory with the resources of the specification *)

Lemma filter_none {A : Type} (P : A → Prop) `{!∀ a, Decision (P a)}
    (l : list A) :
  (∀ a, a ∈ l → ¬ P a) → filter P l = [].
Proof.
  induction l as [|a l IH]; intros Hnone; [done|].
  rewrite filter_cons_False by (apply Hnone; left).
  apply IH. intros b Hb. apply Hnone. by right.
Qed.

Section SpecFactory.
Context {scalar : Type}.
Variable zero : scalar.

Local Abbreviation Facade := (PalHardwareGazebo scalar).
Local Abbreviation add_pair nh model :=
  (λ p : string * string,
     add_resource (Resource_init zero) nh model p.1 p.2).

Lemma elem_of_interface_of_registerHandle res res' name name' hw :
  name' ∈ interface_of res' (registerHandle res name hw) ↔
  (res' = res ∧ name' = name) ∨ name' ∈ interface_of res' hw.
Proof.
  destruct res, res'; simpl; rewrite ?elem_of_union, ?elem_of_singleton;
    intuition congruence.
Qed.

Lemma interface_of_start_init res transmissions (st : Facade) :
  interface_of res (hw (start_init transmissions st)) =
  interface_of res (hw st).
Proof. by destruct res. Qed.

(** The three ways [add_resource] goes with these resources. *)
Lemma add_resource_existing nh model joint_name iface_type res (st : Facade) :
  select_resource iface_type = Some res →
  joint_name ∈ interface_of res (hw st) →
  add_resource (Resource_init zero) nh model joint_name iface_type st =
  Continue (set_hw (hw st) st).
Proof.
  intros Hres Hin. unfold add_resource, Resource_init, hasResource.
  by rewrite Hres, bool_decide_eq_true_2.
Qed.

Lemma add_resource_missing nh model joint_name iface_type res (st : Facade) :
  select_resource iface_type = Some res →
  joint_name ∉ interface_of res (hw st) →
  joints model !! joint_name = None →
  add_resource (Resource_init zero) nh model joint_name iface_type st =
  ReturnFalse (set_hw (hw st) st).
Proof.
  intros Hres Hin Hjoint.
  unfold add_resource, Resource_init, hasResource, GetJoint.
  by rewrite Hres, bool_decide_eq_false_2, Hjoint.
Qed.

Lemma add_resource_new nh model joint_name iface_type res (st : Facade) :
  select_resource iface_type = Some res →
  joint_name ∉ interface_of res (hw st) →
  is_Some (joints model !! joint_name) →
  add_resource (Resource_init zero) nh model joint_name iface_type st =
  Continue
    (set_rw_resources_
       (rw_resources_ st
          ++ [ {| res_name := joint_name; res_variant := res;
                  pos_ := zero; vel_ := zero; eff_ := zero; cmd_ := zero;
                  sim_joint_ := joint_name |} ])
       (set_hw (registerHandle res joint_name (hw st)) st)).
Proof.
  intros Hres Hin [j Hjoint].
  unfold add_resource, Resource_init, hasResource, GetJoint.
  by rewrite Hres, bool_decide_eq_false_2, Hjoint.
Qed.

(** The cases of [add_resource], by what the pair is. *)
Lemma add_resource_cases nh model joint_name iface_type (st : Facade) :
  (select_resource iface_type = None
   ∧ add_resource (Resource_init zero) nh model joint_name iface_type st
     = Continue st)
  ∨ (∃ res, select_resource iface_type = Some res
       ∧ joint_name ∈ interface_of res (hw st)
       ∧ add_resource (Resource_init zero) nh model joint_name iface_type st
         = Continue (set_hw (hw st) st))
  ∨ (∃ res, select_resource iface_type = Some res
       ∧ (joint_name ∉ interface_of res (hw st))
       ∧ joints model !! joint_name = None
       ∧ add_resource (Resource_init zero) nh model joint_name iface_type st
         = ReturnFalse (set_hw (hw st) st))
  ∨ (∃ res, select_resource iface_type = Some res
       ∧ (joint_name ∉ interface_of res (hw st))
       ∧ is_Some (joints model !! joint_name)
       ∧ add_resource (Resource_init zero) nh model joint_name iface_type st
         = Continue
             (set_rw_resources_
                (rw_resources_ st
                   ++ [ {| res_name := joint_name; res_variant := res;
                           pos_ := zero; vel_ := zero; eff_ := zero;
                           cmd_ := zero; sim_joint_ := joint_name |} ])
                (set_hw (registerHandle res joint_name (hw st)) st))).
Proof.
  destruct (select_resource iface_type) as [res|] eqn:Hres.
  - right. destruct (decide (joint_name ∈ interface_of res (hw st))).
    + left. exists res. by rewrite add_resource_existing with (res := res).
    + right. destruct (joints model !! joint_name) as [j|] eqn:Hjoint.
      * right. exists res. by rewrite add_resource_new with (res := res).
      * left. exists res. by rewrite add_resource_missing with (res := res).
  - left. split; [done|]. by apply add_resource_unrecognized.
Qed.

Lemma add_resource_handles_resolved nh model joint_name iface_type
    (st : Facade) :
  handles_resolved model (hw st) →
  handles_resolved model
    (hw (exit_state
           (add_resource (Resource_init zero) nh model joint_name iface_type
              st))).
Proof.
  intros Hst.
  destruct (add_resource_cases nh model joint_name iface_type st)
    as [[_ ->]|[(res & _ & _ & ->)|[(res & _ & _ & _ & ->)
                                   |(res & _ & _ & Hj & ->)]]];
    simpl; try done.
  intros res' name Hname.
  apply elem_of_interface_of_registerHandle in Hname as [[_ ->]|Hname];
    [done | by eapply Hst].
Qed.

(** A recognized pair whose joint the simulation does not have stops the
    loop, at that pair or before it. *)
Lemma missing_joint_stops_loop nh model pairs (st : Facade)
    joint_name iface_type res :
  handles_resolved model (hw st) →
  (joint_name, iface_type) ∈ pairs →
  select_resource iface_type = Some res →
  joints model !! joint_name = None →
  ∃ st', foreach (add_pair nh model) pairs st = ReturnFalse st'.
Proof.
  intros Hst Hin Hres Hjoint. revert st Hst.
  induction pairs as [|[j t] pairs IH]; intros st Hst.
  { by apply elem_of_nil in Hin. }
  simpl.
  pose proof (add_resource_handles_resolved nh model j t st Hst) as Hnext.
  apply elem_of_cons in Hin as [[= <- <-]|Hin].
  - rewrite add_resource_missing with (res := res); [by eexists|done| |done].
    intros Hreg. apply Hst in Hreg as [? ?]. congruence.
  - destruct (add_resource _ _ _ j t st) as [s|s]; [|by eexists].
    by apply IH.
Qed.

Lemma set_hw_id (st : Facade) : set_hw (hw st) st = st.
Proof. by destruct st. Qed.

(** C3. If a (joint, interface type) pair of a recognized type names a
    joint the simulation does not have, [initSim] returns false: the
    resource loop stops at the first such pair, and nothing that follows
    the loop is done (no active-writer set is computed, no sensor is
    parsed, no sensor handle is registered). Nothing is rolled back: the
    facade [initSim] leaves is the one the pairs before that pair have
    made, with the resources they built and the handles they registered.
    The facade [initSim] starts from is one whose joint handles name
    joints of the simulation, as a new facade is. *)
Theorem C3_missing_joint_fails_init robot_ns nh model transmissions
    (st : Facade) joint_name iface_type res :
  handles_resolved model (hw st) →
  (joint_name, iface_type) ∈ declared_pairs transmissions →
  select_resource iface_type = Some res →
  joints model !! joint_name = None →
  (initSim zero (Resource_init zero) robot_ns nh model transmissions st).1
    = false
  ∧ same_sensors st
      (initSim zero (Resource_init zero) robot_ns nh model transmissions
         st).2
  ∧ ∃ done joint_name' iface_type' rest,
      declared_pairs transmissions
        = done ++ (joint_name', iface_type') :: rest
      ∧ is_Some (select_resource iface_type')
      ∧ joints model !! joint_name' = None
      ∧ foreach (add_pair nh model) done (start_init transmissions st)
        = Continue
            (initSim zero (Resource_init zero) robot_ns nh model
               transmissions st).2.
Proof.
  intros Hst Hin Hres Hjoint. rewrite initSim_result.
  pose proof (populate_same_sensors (Resource_init zero) nh model
                transmissions st) as Hsame.
  destruct (missing_joint_stops_loop nh model (declared_pairs transmissions)
              (start_init transmissions st) joint_name iface_type res)
    as [st' Hst']; try done.
  pose proof Hst' as Hrun.
  apply foreach_return_inv in Hrun
    as (done & [j t] & rest & s1 & Hpairs & Hdone & Hbody).
  rewrite Hst' in *. cbn [fst snd exit_state] in *.
  split; [done|]. split; [done|]. exists done, j, t, rest.
  destruct (add_resource_cases nh model j t s1)
    as [[_ Hcase]|[(r & _ & _ & Hcase)|[(r & Hr & _ & Hj & Hcase)
                                       |(r & _ & _ & _ & Hcase)]]];
    simpl in Hbody; rewrite Hcase in Hbody; try done.
  injection Hbody as <-. rewrite set_hw_id.
  repeat split; try done.
Qed.

Lemma add_resource_registry nh model joint_name iface_type (st : Facade) :
  registry_consistent st →
  registry_consistent
    (exit_state
       (add_resource (Resource_init zero) nh model joint_name iface_type st))
  ∧ (∀ k, k ∈ res_key <$> rw_resources_ st →
          k ∈ res_key <$> rw_resources_
                (exit_state
                   (add_resource (Resource_init zero) nh model joint_name
                      iface_type st)))
  ∧ (∀ st' res,
       add_resource (Resource_init zero) nh model joint_name iface_type st
         = Continue st' →
       select_resource iface_type = Some res →
       (joint_name, res) ∈ res_key <$> rw_resources_ st').
Proof.
  intros [Hnd Hreg].
  destruct (add_resource_cases nh model joint_name iface_type st)
    as [[Hnone ->]|[(res & Hres & Hin & ->)|[(res & Hres & Hin & Hj & ->)
                                            |(res & Hres & Hin & Hj & ->)]]];
    unfold registry_consistent;
    cbn [exit_state rw_resources_ hw set_rw_resources_ set_hw].
  - repeat split; try done; try apply Hreg. congruence.
  - repeat split; try done; try apply Hreg.
    intros st' res' [= <-] Hres'. simpl. apply Hreg. congruence.
  - repeat split; try done; apply Hreg.
  - assert ((joint_name, res) ∉ res_key <$> rw_resources_ st) as Hfresh.
    { intros Hk. by apply Hreg in Hk. }
    rewrite !fmap_app. cbn [fmap list_fmap res_key res_name res_variant].
    repeat split.
    + apply NoDup_app. repeat split; [done| |apply NoDup_singleton].
      intros k Hk Hk'. apply list_elem_of_singleton in Hk' as ->. done.
    + intros Hname.
      apply elem_of_interface_of_registerHandle in Hname as [[-> ->]|Hname];
        apply elem_of_app; [right; by left | left; by apply Hreg].
    + intros Hk. apply elem_of_interface_of_registerHandle.
      apply elem_of_app in Hk as [Hk|Hk]; [right; by apply Hreg|left].
      apply list_elem_of_singleton in Hk. by injection Hk as -> ->.
    + intros k Hk. apply elem_of_app. by left.
    + intros st' res' [= <-] Hres'.
      cbn [rw_resources_ set_rw_resources_]. rewrite fmap_app.
      apply elem_of_app. right. replace res' with res by congruence.
      by left.
Qed.

Lemma populate_registry nh model pairs (st : Facade) :
  registry_consistent st →
  registry_consistent (exit_state (foreach (add_pair nh model) pairs st))
  ∧ (∀ k, k ∈ res_key <$> rw_resources_ st →
          k ∈ res_key <$> rw_resources_
                (exit_state (foreach (add_pair nh model) pairs st)))
  ∧ (∀ st' joint_name iface_type res,
       foreach (add_pair nh model) pairs st = Continue st' →
       (joint_name, iface_type) ∈ pairs →
       select_resource iface_type = Some res →
       (joint_name, res) ∈ res_key <$> rw_resources_ st').
Proof.
  revert st. induction pairs as [|[j t] pairs IH]; intros st Hst.
  { simpl. repeat split; try done; try apply Hst.
    intros ? ? ? ? _ Hin. by apply elem_of_nil in Hin. }
  simpl.
  destruct (add_resource_registry nh model j t st Hst)
    as (Hnext & Hgrow & Hadded).
  destruct (add_resource _ _ _ j t st) as [s|s]; simpl in *;
    [|repeat split; try done; apply Hnext].
  destruct (IH s Hnext) as (Hend & Hgrow' & Hadded').
  split; [done|]. split; [by auto|].
  intros st' joint_name iface_type res Hrun Hin Hres.
  apply elem_of_cons in Hin as [[= -> ->]|Hin].
  - rewrite Hrun in Hgrow'. apply Hgrow'. by eapply Hadded.
  - by eapply Hadded'.
Qed.

(** When every joint declared with a recognized type exists, the loop
    runs to its end: a pair declared again does not stop it. *)
Lemma populate_continues nh model pairs (st : Facade) :
  (∀ joint_name iface_type,
     (joint_name, iface_type) ∈ pairs →
     is_Some (select_resource iface_type) →
     is_Some (joints model !! joint_name)) →
  ∃ st', foreach (add_pair nh model) pairs st = Continue st'.
Proof.
  revert st. induction pairs as [|[j t] pairs IH]; intros st Hpairs.
  { by eexists. }
  simpl.
  destruct (add_resource_cases nh model j t st)
    as [[_ ->]|[(res & _ & _ & ->)|[(res & Hres & _ & Hj & _)
                                   |(res & _ & _ & _ & ->)]]];
    try (apply IH; intros ? ? ?; apply Hpairs; by right).
  destruct (Hpairs j t) as [? ?]; [by left|by rewrite Hres|congruence].
Qed.

Lemma one_per_key {A K : Type} `{EqDecision K} (f : A → K) (l : list A)
    (k : K) :
  NoDup (f <$> l) → k ∈ f <$> l →
  length (filter (λ x, f x = k) l) = 1.
Proof.
  induction l as [|a l IH]; intros Hnd Hk.
  { by apply elem_of_nil in Hk. }
  rewrite fmap_cons in Hnd, Hk. apply NoDup_cons in Hnd as [Ha Hnd].
  rewrite filter_cons. destruct (decide (f a = k)) as [<-|Hne]; simpl.
  - rewrite filter_none; [done|]. intros x Hx Hfx. apply Ha.
    rewrite <- Hfx. by apply list_elem_of_fmap_2.
  - apply IH; [done|]. by apply elem_of_cons in Hk as [?|?].
Qed.

(** The cycle neither adds a resource nor changes which pair a resource
    stands for. *)
Lemma cycle_res_keys time period (st : Facade) world :
  res_key <$> rw_resources_ (readSim Resource_read time period st world).1.1
    = res_key <$> rw_resources_ st
  ∧ res_key
      <$> rw_resources_
            (writeSim (Resource_write zero) time period st world).1.1
    = res_key <$> rw_resources_ st.
Proof.
  pose proof (call_each_preserves read Resource_read time period
                (e_stop_active_ st) res_key
                (seq 0 (length (rw_resources_ st))) (rw_resources_ st) world)
    as Hread.
  pose proof (call_each_preserves write (Resource_write zero) time period
                (e_stop_active_ st) res_key (active_w_resources_rt_ st)
                (rw_resources_ st) world) as Hwrite.
  unfold readSim, writeSim.
  destruct (call_each read _ _ _ _ _ _ _) as [[rs1 world1] calls1].
  destruct (call_each write _ _ _ _ _ _ _) as [[rs2 world2] calls2].
  cbn [fst snd rw_resources_ set_rw_resources_ set_imuSensorDefinitions_
       set_forceTorqueSensorDefinitions_] in *.
  split; [apply Hread | by apply Hwrite].
  intros r w. unfold Resource_read. by destruct (joints w !! sim_joint_ r).
Qed.

(** C4. With these resources [initSim] never holds two resources for one
    (joint name, variant) pair, whether it succeeds or not. A pair that is
    declared again meets the already-exists condition, which is swallowed:
    when every joint declared with a recognized type exists, [initSim]
    succeeds, however often a pair is declared. And after a successful
    [initSim] there is exactly one resource for each pair declared with a
    recognized type. The cycle keeps it so: [readSim] and [writeSim] leave
    the pairs of the resources as they are. The facade [initSim] starts
    from is consistent, as a new facade is. *)
Theorem C4_one_resource_per_joint_and_variant robot_ns nh model transmissions
    (st : Facade) :
  registry_consistent st →
  let result :=
    initSim zero (Resource_init zero) robot_ns nh model transmissions st in
  NoDup (res_key <$> rw_resources_ result.2)
  ∧ ((∀ joint_name iface_type,
        (joint_name, iface_type) ∈ declared_pairs transmissions →
        is_Some (select_resource iface_type) →
        is_Some (joints model !! joint_name)) →
     result.1 = true)
  ∧ (result.1 = true →
     ∀ joint_name iface_type res,
       (joint_name, iface_type) ∈ declared_pairs transmissions →
       select_resource iface_type = Some res →
       length (filter (λ r, res_key r = (joint_name, res))
                 (rw_resources_ result.2)) = 1)
  ∧ (∀ time period (s : Facade) world,
       res_key
         <$> rw_resources_ (readSim Resource_read time period s world).1.1
         = res_key <$> rw_resources_ s
       ∧ res_key
           <$> rw_resources_
                 (writeSim (Resource_write zero) time period s world).1.1
         = res_key <$> rw_resources_ s).
Proof.
  intros Hst result. subst result.
  assert (∀ time period (s : Facade) world,
            res_key
              <$> rw_resources_ (readSim Resource_read time period s world).1.1
              = res_key <$> rw_resources_ s
            ∧ res_key
                <$> rw_resources_
                      (writeSim (Resource_write zero) time period s world).1.1
              = res_key <$> rw_resources_ s) as Hcycle
    by (intros; apply cycle_res_keys).
  rewrite initSim_result.
  assert (registry_consistent (start_init transmissions st)) as Hstart.
  { destruct Hst as [Hnd Hreg]. split; [done|]. intros name res.
    rewrite interface_of_start_init. apply Hreg. }
  destruct (populate_registry nh model (declared_pairs transmissions)
              (start_init transmissions st) Hstart)
    as ([Hnd _] & _ & Hadded).
  pose proof (populate_continues nh model (declared_pairs transmissions)
                (start_init transmissions st)) as Hcontinues.
  destruct (foreach _ _ _) as [s|s]; cbn [fst snd exit_state] in *.
  - destruct (finish_init_fields zero nh model s) as [_ ->].
    split; [done|]. split; [done|]. split; [|exact Hcycle].
    intros _ joint_name iface_type res Hin Hres.
    apply one_per_key; [done|]. by eapply Hadded.
  - split; [done|]. split; [|split; [done|exact Hcycle]].
    intros Hexist. by destruct (Hcontinues Hexist).
Qed.

End SpecFactory.

(** ** The scenarios *)

Section Scenarios.
Import Scenario.

Local Abbreviation init nh model transmissions :=
  (initSim 0%Z (Resource_init 0%Z) "pal" nh model transmissions fresh).

(** C1. The scenario of the specification: the force-torque sensor
    ["ft0"] is attached to joint ["j1"], which the simulation does not
    have. [parseForceTorqueSensors] returns false, as the specification
    has it; [initSim] does not look at that result and returns true. *)
Theorem C1_force_torque_failure_is_not_reported :
  (parseForceTorqueSensors 0%Z nh_ft0 world_without_joints fresh).1 = false
  ∧ (init nh_ft0 world_without_joints []).1 = true.
Proof. split; reflexivity. Qed.

(** C2. Two inertial sensors are configured and the simulation has the
    base IMU: [parseIMUSensors] would build a definition for each, both
    bound to the one source; but [initSim] does not call it, so after a
    successful [initSim] there is no inertial definition and no inertial
    handle. *)
Theorem C2_initSim_builds_no_inertial_definition :
  (init nh_imu01 world robot_j1).1 = true
  ∧ imuSensorDefinitions_ (init nh_imu01 world robot_j1).2 = []
  ∧ imu_sensor_interface_ (init nh_imu01 world robot_j1).2 = ∅
  ∧ ImuSensorDefinition.sensorName
      <$> imuSensorDefinitions_ (parseIMUSensors 0%Z nh_imu01 world fresh).2
    = ["imu0"; "imu1"].
Proof. repeat split; reflexivity. Qed.

(** An exception of [init] that is not a [std::runtime_error] ends
    [initSim] as well. *)
Example unknown_exception_is_fatal :
  (initSim 0%Z init_throwing "pal" nh_empty world
     [transmission "j1" [position_iface]; transmission "j2" [effort_iface]]
     fresh).1 = false.
Proof. reflexivity. Qed.

(** Without the emergency stop the active writer applies its command
    buffer. *)
Example write_applies_command :
  external_target
    (writeSim (Resource_write 0%Z) 5%Z 1%Z (running false) world).1.2
    ("j2", EffortJoint) = Some 40%Z.
Proof. reflexivity. Qed.

Lemma fresh_handles_resolved (model : Gazebo Z) :
  handles_resolved model (hw fresh).
Proof.
  intros res name Hname. destruct res; by apply not_elem_of_empty in Hname.
Defined.

Lemma fresh_registry_consistent : registry_consistent fresh.
Proof.
  split; [constructor|]. intros name res. split; intros Hname.
  - destruct res; by apply not_elem_of_empty in Hname.
  - by apply elem_of_nil in Hname.
Defined.

Lemma C3_witness :
  (init nh_empty world robot_j1_j9).1 = false
  ∧ same_sensors fresh (init nh_empty world robot_j1_j9).2
  ∧ ∃ done joint_name' iface_type' rest,
      declared_pairs robot_j1_j9 = done ++ (joint_name', iface_type') :: rest
      ∧ is_Some (select_resource iface_type')
      ∧ joints world !! joint_name' = None
      ∧ foreach
          (λ p : string * string,
             add_resource (Resource_init 0%Z) nh_empty world p.1 p.2)
          done (start_init robot_j1_j9 fresh)
        = Continue (init nh_empty world robot_j1_j9).2.
Proof.
  apply (C3_missing_joint_fails_init 0%Z "pal" nh_empty world robot_j1_j9
           fresh "j9" effort_iface EffortJoint).
  - apply fresh_handles_resolved.
  - apply (bool_decide_unpack _). vm_compute. exact I.
  - reflexivity.
  - reflexivity.
Defined.

(** C3, against the claim as it is written. Joint ["j1"] is declared
    before the joint ["j9"] the simulation lacks: [initSim] returns false,
    and the facade it leaves still holds the position resource of ["j1"],
    its handle in the position interface and the four joint interface
    groups; a [readSim] on that facade reads the resource. The
    registration is partial, and it is there to be used. *)
Lemma C3_partial_registration_stays :
  (init nh_empty world robot_j1_j9).1 = false
  ∧ res_key <$> rw_resources_ (init nh_empty world robot_j1_j9).2
    = [("j1", PositionJoint)]
  ∧ "j1" ∈ pj_interface_ (hw (init nh_empty world robot_j1_j9).2)
  ∧ interfaces_ (hw (init nh_empty world robot_j1_j9).2)
    = [JointStateInterface; EffortJointInterface; PositionJointInterface;
       VelocityJointInterface]
  ∧ (readSim Resource_read 5%Z 1%Z (init nh_empty world robot_j1_j9).2
       world).2
    = [ {| method := read; target := 0; time_ := 5%Z; period_ := 1%Z;
           e_stop := true |} ]
  ∧ ¬ (rw_resources_ (init nh_empty world robot_j1_j9).2
         = rw_resources_ fresh
       ∧ hw (init nh_empty world robot_j1_j9).2 = hw fresh).
Proof.
  split; [reflexivity|]. split; [reflexivity|].
  split; [apply (bool_decide_unpack _); vm_compute; exact I|].
  split; [reflexivity|]. split; [reflexivity|].
  intros [Hrw _]. discriminate Hrw.
Qed.

Lemma C4_witness :
  NoDup (res_key <$> rw_resources_ (init nh_empty world robot_j1).2)
  ∧ (init nh_empty world robot_j1).1 = true
  ∧ length (filter (λ r, res_key r = ("j1", PositionJoint))
              (rw_resources_ (init nh_empty world robot_j1).2)) = 1.
Proof.
  destruct (C4_one_resource_per_joint_and_variant 0%Z "pal" nh_empty world
              robot_j1 fresh fresh_registry_consistent)
    as (Hnd & Hsucceeds & Hone & _).
  split; [exact Hnd|]. split; [reflexivity|].
  apply (Hone eq_refl "j1" position_iface PositionJoint).
  - apply (bool_decide_unpack _). vm_compute. exact I.
  - reflexivity.
Defined.

Lemma C5_witness :
  ("hardware_interface/Other" ∉ recognized_interfaces)
  ∧ add_resource (Resource_init 0%Z) nh_empty world "j1"
      "hardware_interface/Other" fresh = Continue fresh
  ∧ (init nh_empty world robot_j1).1 =
    (init nh_empty world (recognized_only robot_j1)).1.
Proof.
  destruct (C5_unrecognized_interface_is_skipped 0%Z (Resource_init 0%Z)
              "pal" nh_empty world robot_j1 fresh) as (Hskip & Hflag & _).
  assert ("hardware_interface/Other" ∉ recognized_interfaces) as Hother.
  { apply (bool_decide_unpack _). vm_compute. exact I. }
  split; [exact Hother|]. split; [|exact Hflag].
  apply Hskip. exact Hother.
Defined.

Lemma C6_witness :
  (init nh_empty world robot_j1_j9).1 = false.
Proof.
  erewrite (C6_init_failure_is_fatal 0%Z (Resource_init 0%Z) "pal" nh_empty
              world robot_j1_j9 fresh _ [("j1", position_iface)] "j9"
              effort_iface [("j2", effort_iface)] EffortJoint).
  - reflexivity.
  - reflexivity.
  - reflexivity.
  - reflexivity.
  - vm_compute. exact I.
Defined.

Lemma C7_witness :
  rw_resources_ (running false) !! 1 = Some (resource "j1" PositionJoint 30)
  ∧ (1 ∉ active_w_resources_rt_ (running false))
  ∧ rw_resources_
      (writeSim (Resource_write 0%Z) 5%Z 1%Z (running false) world).1.1 !! 1
    = Some (resource "j1" PositionJoint 30)
  ∧ external_target
      (writeSim (Resource_write 0%Z) 5%Z 1%Z (running false) world).1.2
      ("j1", PositionJoint)
    = external_target world ("j1", PositionJoint).
Proof.
  assert (1 ∉ active_w_resources_rt_ (running false)) as Hinactive.
  { apply (bool_decide_unpack _). vm_compute. exact I. }
  split; [reflexivity|]. split; [exact Hinactive|].
  refine (proj2 (proj2
    (C7_inactive_resource_is_not_written (Resource_write 0%Z) 5%Z 1%Z
       (running false) world 1 (resource "j1" PositionJoint 30)
       _ _ _ _ Hinactive))).
  - intros r0 t p e w. reflexivity.
  - intros r0 t p e w c. apply Resource_write_footprint.
  - apply (bool_decide_unpack _). vm_compute. exact I.
  - reflexivity.
Defined.

Lemma C8_witness :
  ∃ ft',
    forceTorqueSensorDefinitions_
      (readSim Resource_read 5%Z 1%Z (running false) world).1.1 !! 0
    = Some ft'
    ∧ ForceTorqueSensorDefinition.sensorName ft' = "ft0"
    ∧ ForceTorqueSensorDefinition.force ft' = (4, 5, 6)%Z
    ∧ ForceTorqueSensorDefinition.torque ft' = (7, 8, 9)%Z.
Proof.
  destruct (C8_read_refreshes_every_buffer_once 0%Z (Resource_init 0%Z)
              Resource_read (Resource_write 0%Z) 5%Z 1%Z (running false)
              world) as (_ & _ & _ & Hft & _).
  apply (Hft 0 (make_ft_sensor 0%Z nh_ft0 world "ft0") "j1" (joint 1));
    reflexivity.
Defined.

Lemma C9_witness :
  e_stop_active_ (Scenario2.running_both true) = true
  ∧ (readSim Resource_read 5%Z 1%Z (Scenario2.running_both true) world).2 =
    [ {| method := read; target := 0; time_ := 5%Z; period_ := 1%Z;
         e_stop := true |};
      {| method := read; target := 1; time_ := 5%Z; period_ := 1%Z;
         e_stop := true |};
      {| method := read; target := 2; time_ := 5%Z; period_ := 1%Z;
         e_stop := true |} ]
  ∧ (writeSim (Resource_write 0%Z) 5%Z 1%Z (Scenario2.running_both true)
       world).2 =
    [ {| method := write; target := 1; time_ := 5%Z; period_ := 1%Z;
         e_stop := true |};
      {| method := write; target := 2; time_ := 5%Z; period_ := 1%Z;
         e_stop := true |} ]
  ∧ cmd_ (resource "j1" PositionJoint 30) = 30%Z
  ∧ external_target
      (writeSim (Resource_write 0%Z) 5%Z 1%Z (Scenario2.running_both true)
         world).1.2
      ("j1", PositionJoint)
    = Some 20%Z
  ∧ external_target
      (writeSim (Resource_write 0%Z) 5%Z 1%Z (Scenario2.running_both true)
         world).1.2
      ("j2", EffortJoint)
    = Some 0%Z.
Proof.
  destruct (C9_emergency_stop_forces_safe_value 0%Z (Resource_init 0%Z)
              Resource_read "pal" nh_empty world robot_j1 fresh 5%Z 1%Z
              (Scenario2.running_both true) world)
    as (_ & Hreads & _ & Hwrites & _ & _ & _ & Hsafe).
  assert (NoDup (channel <$> rw_resources_ (Scenario2.running_both true)))
    as Hnd by (apply (bool_decide_unpack _); vm_compute; exact I).
  split; [reflexivity|]. split; [exact Hreads|]. split; [exact Hwrites|].
  split; [reflexivity|]. split.
  - apply (Hsafe eq_refl Hnd 1 (resource "j1" PositionJoint 30)).
    + apply (bool_decide_unpack _). vm_compute. exact I.
    + reflexivity.
    + discriminate.
    + vm_compute. eexists. reflexivity.
  - apply (Hsafe eq_refl Hnd 2 (resource "j2" EffortJoint 40)).
    + apply (bool_decide_unpack _). vm_compute. exact I.
    + reflexivity.
    + discriminate.
    + vm_compute. eexists. reflexivity.
Defined.

Lemma C10_witness :
  (parseForceTorqueSensors 0%Z nh_ft01 world fresh).1 = false
  ∧ ForceTorqueSensorDefinition.sensorName
      <$> forceTorqueSensorDefinitions_ (init nh_ft01 world robot_j1).2
    = ["ft0"]
  ∧ ft_sensor_interface_ (init nh_ft01 world robot_j1).2 !! "ft0" =
    Some {| ForceTorqueSensorHandle.name := "ft0";
            ForceTorqueSensorHandle.frame_id := "ft_link";
            ForceTorqueSensorHandle.force := ft_force 0;
            ForceTorqueSensorHandle.torque := ft_torque 0 |}.
Proof.
  destruct (C10_force_torque_failure_keeps_earlier_definitions 0%Z
              (Resource_init 0%Z) "pal" nh_ft01 world robot_j1 fresh
              ["ft0"] "ft1" []) as [Hparse Hinit].
  - reflexivity.
  - intros id Hid. apply list_elem_of_singleton in Hid as ->.
    vm_compute. eexists. reflexivity.
  - reflexivity.
  - apply (bool_decide_unpack _). vm_compute. exact I.
  - split; [by rewrite Hparse|].
    destruct (Hinit eq_refl) as [Hdefs Hhandles].
    split; [by rewrite Hdefs|].
    apply (Hhandles 0 (make_ft_sensor 0%Z nh_ft01 world "ft0")).
    reflexivity.
Defined.

End Scenarios.

(** * Further properties *)

(** ** The lookup of the interface type *)

(** The [if / else if] chain is an exact table: an interface type selects a
    variant exactly when it is, character for character, the identifier of
    that variant; so the four identifiers select four different variants
    and no other string selects anything. *)
Theorem select_resource_exact (iface_type : string) (res : capability) :
  select_resource iface_type = Some res ↔ iface_type = interface_name res.
Proof.
  unfold select_resource. split.
  - destruct (String.eqb_spec iface_type
                "hardware_interface/JointStateInterface") as [->|?];
      [by intros [= <-]|].
    destruct (String.eqb_spec iface_type
                "hardware_interface/PositionJointInterface") as [->|?];
      [by intros [= <-]|].
    destruct (String.eqb_spec iface_type
                "hardware_interface/VelocityJointInterface") as [->|?];
      [by intros [= <-]|].
    destruct (String.eqb_spec iface_type
                "hardware_interface/EffortJointInterface") as [->|?];
      [by intros [= <-]|done].
  - intros ->. by destruct res.
Qed.

Section FactoryExtras.
Context {scalar : Type}.
Variable zero : scalar.
Variable res_init :
  capability → string → NodeHandle → Gazebo scalar → RobotHW →
  InitOutcome scalar * RobotHW.

Local Abbreviation Facade := (PalHardwareGazebo scalar).
Local Abbreviation add_pair nh model :=
  (λ p : string * string, add_resource res_init nh model p.1 p.2).

Lemma add_resource_return_inv nh model joint_name iface_type (st st' : Facade) :
  add_resource res_init nh model joint_name iface_type st = ReturnFalse st' →
  ∃ res, select_resource iface_type = Some res
         ∧ fatal (res_init res joint_name nh model (hw st)).1.
Proof.
  unfold add_resource. destruct (select_resource iface_type) as [res|]; [|done].
  intros Hrun. exists res. split; [done|].
  by destruct (res_init _ _ _ _ _) as [[r| |what|] hw'].
Qed.

Lemma add_resource_fatal nh model joint_name iface_type res (st : Facade) :
  select_resource iface_type = Some res →
  fatal (res_init res joint_name nh model (hw st)).1 →
  ∃ st', add_resource res_init nh model joint_name iface_type st
         = ReturnFalse st'.
Proof.
  intros Hres Hfatal. unfold add_resource. rewrite Hres.
  destruct (res_init _ _ _ _ _) as [[r| |what|] hw']; by eauto.
Qed.

(** When [initSim] returns false, the [init] of a resource, at some
    declared pair of a recognized type reached by the loop, has ended with
    an exception other than the already-exists condition: both
    [return false] statements are in the handlers of that call, so no
    sensor, no parameter and no unknown interface type makes [initSim]
    return false. *)
Theorem initSim_false_only_by_fatal_init robot_ns nh model transmissions
    (st : Facade) :
  (initSim zero res_init robot_ns nh model transmissions st).1 = false →
  ∃ done joint_name iface_type rest res st1,
    declared_pairs transmissions = done ++ (joint_name, iface_type) :: rest
    ∧ foreach (add_pair nh model) done (start_init transmissions st)
      = Continue st1
    ∧ select_resource iface_type = Some res
    ∧ fatal (res_init res joint_name nh model (hw st1)).1
    ∧ (initSim zero res_init robot_ns nh model transmissions st).2
      = set_hw (res_init res joint_name nh model (hw st1)).2 st1.
Proof.
  rewrite initSim_result.
  destruct (foreach _ _ _) as [s|s] eqn:Hrun; [done|]. intros _.
  apply foreach_return_inv in Hrun
    as (done & [j t] & rest & s1 & Hpairs & Hdone & Hbody).
  cbn [fst snd] in Hbody. pose proof Hbody as Hfatal.
  apply add_resource_return_inv in Hfatal as (res & Hres & Hfatal).
  exists done, j, t, rest, res, s1. repeat split; try done.
  unfold add_resource in Hbody.
  rewrite Hres in Hbody.
  destruct (res_init res j nh model (hw s1)) as [[r| |what|] hw'];
    simpl in *; congruence.
Qed.

(** The resource loop only appends to [rw_resources_], at most one
    resource per pair of a recognized type. *)
Lemma populate_appends nh model pairs (st : Facade) :
  ∃ new,
    rw_resources_ (exit_state (foreach (add_pair nh model) pairs st))
      = rw_resources_ st ++ new
    ∧ (length new
       ≤ length (filter (λ p, is_Some (select_resource p.2)) pairs))%nat.
Proof.
  revert st. induction pairs as [|[j t] pairs IH]; intros st.
  { exists []. by rewrite app_nil_r. }
  rewrite filter_cons. cbn [foreach fst snd]. unfold add_resource at 1.
  destruct (select_resource t) as [res|].
  - rewrite decide_True by done. cbn [length].
    destruct (res_init res j nh model (hw st)) as [[r| |what|] hw'].
    + destruct (IH (set_rw_resources_ (rw_resources_ st ++ [r])
                      (set_hw hw' st))) as (new & -> & Hlen).
      exists (r :: new). simpl. rewrite <- app_assoc. split; [done|lia].
    + destruct (IH (set_hw hw' st)) as (new & -> & Hlen).
      exists new. split; [done|lia].
    + exists []. simpl. rewrite app_nil_r. split; [done|lia].
    + exists []. simpl. rewrite app_nil_r. split; [done|lia].
  - rewrite decide_False by (by intros [? ?]). apply IH.
Qed.

Lemma finish_init_rw_resources_ nh model (st : Facade) :
  rw_resources_ (finish_init zero nh model st) = rw_resources_ st.
Proof.
  destruct (parseForceTorqueSensors_appends zero nh model)
    as (new & b & Hparse).
  unfold finish_init. rewrite Hparse. by destruct (bool_param nh _).
Qed.

(** [initSim] never drops, replaces or reorders a resource the facade
    holds: it appends to [rw_resources_], and it appends no more resources
    than pairs of a recognized type are declared, whether it succeeds or
    fails. *)
Theorem initSim_appends_resources robot_ns nh model transmissions
    (st : Facade) :
  ∃ new,
    rw_resources_ (initSim zero res_init robot_ns nh model transmissions st).2
      = rw_resources_ st ++ new
    ∧ (length new
       ≤ length (filter (λ p, is_Some (select_resource p.2))
                   (declared_pairs transmissions)))%nat.
Proof.
  rewrite initSim_result.
  destruct (populate_appends nh model (declared_pairs transmissions)
              (start_init transmissions st)) as (new & Hnew & Hlen).
  exists new. split; [|done].
  destruct (foreach _ _ _) as [s|s]; cbn [fst snd exit_state] in *;
    [by rewrite finish_init_rw_resources_ | done].
Qed.

Lemma populate_transmission_infos_ nh model pairs (st : Facade) :
  transmission_infos_ (exit_state (foreach (add_pair nh model) pairs st))
  = transmission_infos_ st.
Proof.
  apply (foreach_invariant
           (λ s : Facade, transmission_infos_ s = transmission_infos_ st));
    [|done].
  intros [j t] s _ Hs. unfold add_resource. simpl.
  destruct (select_resource t); [|done].
  by destruct (res_init _ _ _ _ _) as [[r| |what|] hw'].
Qed.

Lemma finish_init_flags nh model (st : Facade) :
  transmission_infos_ (finish_init zero nh model st) = transmission_infos_ st
  ∧ mode_switch_enabled_ (finish_init zero nh model st) =
    default true
      (bool_param nh "gazebo_ros_control/enable_joint_mode_switching").
Proof.
  destruct (parseForceTorqueSensors_appends zero nh model)
    as (new & b & Hparse).
  unfold finish_init. rewrite Hparse. by destruct (bool_param nh _).
Qed.

(** A failed [initSim] has cached the transmissions and has touched the
    resources and the joint handles at most: the sensor definitions, the
    sensor handles, the active-writer set and the two flags are what they
    were, so the emergency-stop flag of a new facade is still the
    uninitialised value. (That the transmissions are cached holds for a
    successful [initSim] as well.) *)
Theorem initSim_failure_leaves_the_rest robot_ns nh model transmissions
    (st : Facade) :
  transmission_infos_
    (initSim zero res_init robot_ns nh model transmissions st).2
  = transmissions
  ∧ ((initSim zero res_init robot_ns nh model transmissions st).1 = false →
     same_sensors st
       (initSim zero res_init robot_ns nh model transmissions st).2).
Proof.
  rewrite initSim_result.
  pose proof (populate_same_sensors res_init nh model transmissions st)
    as Hsame.
  pose proof (populate_transmission_infos_ nh model
                (declared_pairs transmissions) (start_init transmissions st))
    as Htr.
  destruct (foreach _ _ _) as [s|s]; cbn [fst snd exit_state] in *.
  - split; [|done]. by destruct (finish_init_flags nh model s) as [-> _].
  - done.
Qed.

(** After a successful [initSim] joint mode switching is enabled unless the
    parameter [gazebo_ros_control/enable_joint_mode_switching] is present
    and false: an absent parameter means enabled. The flag the facade had
    before plays no part. *)
Theorem initSim_mode_switch_default robot_ns nh model transmissions
    (st : Facade) :
  (initSim zero res_init robot_ns nh model transmissions st).1 = true →
  mode_switch_enabled_
    (initSim zero res_init robot_ns nh model transmissions st).2
  = default true
      (bool_param nh "gazebo_ros_control/enable_joint_mode_switching").
Proof.
  rewrite initSim_result.
  destruct (foreach _ _ _) as [s|s]; cbn [fst snd]; [intros _|done].
  apply finish_init_flags.
Qed.

End FactoryExtras.

(** ** The sensor parsers, further *)

Section SensorExtras.
Context {scalar : Type}.
Variable zero : scalar.
Variable res_init :
  capability → string → NodeHandle → Gazebo scalar → RobotHW →
  InitOutcome scalar * RobotHW.

Local Abbreviation Facade := (PalHardwareGazebo scalar).
Local Abbreviation resolves nh model id :=
  (is_Some (GetJoint model (fetchParam nh "force_torque" id "sensor_joint"))).

Lemma set_imuSensorDefinitions_id (st : Facade) :
  set_imuSensorDefinitions_ (imuSensorDefinitions_ st) st = st.
Proof. by destruct st. Qed.

Lemma parse_ft_sensors_unresolved nh model ids (st : Facade) id :
  id ∈ ids →
  GetJoint model (fetchParam nh "force_torque" id "sensor_joint") = None →
  ∃ st', foreach (parse_ft_sensor zero nh model) ids st = ReturnFalse st'.
Proof.
  intros Hin Hid. revert st.
  induction ids as [|id0 ids IH]; intros st.
  { by apply elem_of_nil in Hin. }
  simpl. unfold parse_ft_sensor at 1.
  cbn [make_ft_sensor new_ForceTorqueSensorDefinition
       ForceTorqueSensorDefinition.gazebo_joint
       ForceTorqueSensorDefinition.sensorJointName].
  destruct (GetJoint model (fetchParam nh "force_torque" id0 "sensor_joint"))
    as [joint|] eqn:Hid0; [|by eexists].
  apply elem_of_cons in Hin as [->|Hin]; [congruence|]. by apply IH.
Qed.

(** What a return of [parseForceTorqueSensors] tells. When it returns
    true, the attachment joint of every declared sensor is a joint of the
    model and one definition per sensor id has been appended, in the
    order of the ids (none when no sensor is declared). When it returns
    false, some declared sensor has an attachment joint the model lacks,
    the joints of the sensors declared before the first such sensor
    resolve, and the definitions appended are those of these sensors. In
    both cases nothing else of the facade has changed. *)
Theorem parseForceTorqueSensors_return nh model (st : Facade) :
  ((parseForceTorqueSensors zero nh model st).1 = true →
   (∀ id, id ∈ getIds nh "force_torque" → resolves nh model id)
   ∧ (parseForceTorqueSensors zero nh model st).2 =
     set_forceTorqueSensorDefinitions_
       (forceTorqueSensorDefinitions_ st
          ++ (make_ft_sensor zero nh model <$> getIds nh "force_torque")) st)
  ∧ ((parseForceTorqueSensors zero nh model st).1 = false →
     ∃ pre bad post,
       getIds nh "force_torque" = pre ++ bad :: post
       ∧ (∀ id, id ∈ pre → resolves nh model id)
       ∧ GetJoint model (fetchParam nh "force_torque" bad "sensor_joint")
         = None
       ∧ (parseForceTorqueSensors zero nh model st).2 =
         set_forceTorqueSensorDefinitions_
           (forceTorqueSensorDefinitions_ st
              ++ (make_ft_sensor zero nh model <$> pre)) st).
Proof.
  assert (∀ ids (s s' : Facade),
            foreach (parse_ft_sensor zero nh model) ids s = Continue s' →
            ∀ id, id ∈ ids → resolves nh model id) as Hcontinue.
  { intros ids s s' Hrun id Hin.
    destruct (GetJoint model
                (fetchParam nh "force_torque" id "sensor_joint"))
      as [joint|] eqn:Hid; [done|].
    destruct (parse_ft_sensors_unresolved nh model ids s id Hin Hid)
      as [s2 Hrun2]. congruence. }
  unfold parseForceTorqueSensors.
  destruct (foreach _ _ _) as [s|s] eqn:Hrun; cbn [fst snd].
  - split; [intros _|done].
    pose proof (Hcontinue _ _ _ Hrun) as Hall. split; [done|].
    rewrite parse_ft_sensors_resolved in Hrun by done. congruence.
  - split; [done|intros _].
    apply foreach_return_inv in Hrun
      as (pre & bad & post & s1 & Hids & Hpre & Hbad).
    pose proof (Hcontinue _ _ _ Hpre) as Hall.
    rewrite parse_ft_sensors_resolved in Hpre by done.
    injection Hpre as <-.
    exists pre, bad, post. split; [done|]. split; [done|].
    unfold parse_ft_sensor in Hbad.
    cbn [make_ft_sensor new_ForceTorqueSensorDefinition
         ForceTorqueSensorDefinition.gazebo_joint
         ForceTorqueSensorDefinition.sensorJointName] in Hbad.
    destruct (GetJoint model
                (fetchParam nh "force_torque" bad "sensor_joint"));
      [done|]. split; [done|]. congruence.
Qed.

Lemma make_ft_sensor_names nh (model : Gazebo scalar) (ids : list string) :
  ids =
  ForceTorqueSensorDefinition.sensorName ∘ make_ft_sensor zero nh model
    <$> ids.
Proof. induction ids as [|id ids IH]; [done|]. simpl. by f_equal. Qed.

Lemma make_ft_sensor_bound nh model id p :
  ForceTorqueSensorDefinition.gazebo_joint (make_ft_sensor zero nh model id)
    = Some p →
  ft_bound model (make_ft_sensor zero nh model id).
Proof.
  intros Hp. exists p. split; [done|]. clear -Hp.
  cbn [make_ft_sensor new_ForceTorqueSensorDefinition
       ForceTorqueSensorDefinition.gazebo_joint
       ForceTorqueSensorDefinition.sensorJointName] in Hp.
  unfold GetJoint in Hp.
  destruct (joints model !! fetchParam nh "force_torque" id "sensor_joint")
    as [joint|] eqn:Hjoint; [|done].
  injection Hp as Hp. subst p. by exists joint.
Qed.

Lemma parseForceTorqueSensors_bound nh model (st : Facade) :
  Forall (ft_bound model) (forceTorqueSensorDefinitions_ st) →
  Forall (ft_bound model)
    (forceTorqueSensorDefinitions_
       (parseForceTorqueSensors zero nh model st).2).
Proof.
  intros Hst. unfold parseForceTorqueSensors.
  assert (Forall (ft_bound model)
            (forceTorqueSensorDefinitions_
               (exit_state
                  (foreach (parse_ft_sensor zero nh model)
                     (getIds nh "force_torque") st)))) as Hexit.
  { apply (foreach_invariant
             (λ s : Facade,
                Forall (ft_bound model) (forceTorqueSensorDefinitions_ s)));
      [|done].
    intros id s _ Hs. unfold parse_ft_sensor.
    destruct (ForceTorqueSensorDefinition.gazebo_joint
                (make_ft_sensor zero nh model id)) as [p|] eqn:Hp; [|done].
    simpl. apply Forall_app. split; [done|].
    apply Forall_singleton. by eapply make_ft_sensor_bound. }
  by destruct (foreach _ _ _).
Qed.

Lemma finish_init_parsed nh model (st : Facade) :
  forceTorqueSensorDefinitions_ (finish_init zero nh model st) =
  forceTorqueSensorDefinitions_ (parseForceTorqueSensors zero nh model st).2.
Proof.
  destruct (parseForceTorqueSensors_appends zero nh model)
    as (new & b & Hparse).
  destruct (finish_init_force_torque zero nh model st _ _ Hparse) as [-> _].
  by rewrite Hparse.
Qed.

(** The pointer invariant behind the unguarded dereference of [readSim]:
    if every force-torque definition of the facade has a joint pointer
    that is not null and designates a joint of the model, the same holds
    after [parseForceTorqueSensors] and after [initSim] on that model,
    whatever they return: a definition whose joint does not resolve is
    never stored. *)
Theorem force_torque_definitions_stay_bound robot_ns nh model transmissions
    (st : Facade) :
  Forall (ft_bound model) (forceTorqueSensorDefinitions_ st) →
  Forall (ft_bound model)
    (forceTorqueSensorDefinitions_
       (parseForceTorqueSensors zero nh model st).2)
  ∧ Forall (ft_bound model)
      (forceTorqueSensorDefinitions_
         (initSim zero res_init robot_ns nh model transmissions st).2).
Proof.
  intros Hst. split; [by apply parseForceTorqueSensors_bound|].
  rewrite initSim_result.
  pose proof (populate_same_sensors res_init nh model transmissions st)
    as (_ & _ & Hdefs & _).
  destruct (foreach _ _ _) as [s|s]; cbn [fst snd exit_state] in *.
  - rewrite finish_init_parsed. apply parseForceTorqueSensors_bound.
    by rewrite Hdefs.
  - by rewrite Hdefs.
Qed.

(** The success path of the force-torque registration: when every
    attachment joint resolves and [initSim] succeeds, the facade holds the
    definitions it had followed by one per declared sensor, and under the
    name of each definition the force-torque interface has a handle with
    the name and frame of that definition and the addresses of its own
    force and torque buffers (sensor names being distinct). *)
Theorem initSim_registers_force_torque_handles robot_ns nh model transmissions
    (st : Facade) :
  (∀ id, id ∈ getIds nh "force_torque" → resolves nh model id) →
  NoDup ((ForceTorqueSensorDefinition.sensorName
            <$> forceTorqueSensorDefinitions_ st)
         ++ getIds nh "force_torque") →
  (initSim zero res_init robot_ns nh model transmissions st).1 = true →
  let st' := (initSim zero res_init robot_ns nh model transmissions st).2 in
  forceTorqueSensorDefinitions_ st' =
    forceTorqueSensorDefinitions_ st
      ++ (make_ft_sensor zero nh model <$> getIds nh "force_torque")
  ∧ ∀ i ft,
      forceTorqueSensorDefinitions_ st' !! i = Some ft →
      ft_sensor_interface_ st' !! ForceTorqueSensorDefinition.sensorName ft =
      Some {| ForceTorqueSensorHandle.name :=
                ForceTorqueSensorDefinition.sensorName ft;
              ForceTorqueSensorHandle.frame_id :=
                ForceTorqueSensorDefinition.sensorFrame ft;
              ForceTorqueSensorHandle.force := ft_force i;
              ForceTorqueSensorHandle.torque := ft_torque i |}.
Proof.
  intros Hall Hnames. rewrite initSim_result.
  pose proof (populate_same_sensors res_init nh model transmissions st)
    as (Hiface & _ & Hdefs & _).
  destruct (foreach _ _ _) as [s|s]; cbn [fst snd]; [intros _|done].
  simpl in Hiface, Hdefs.
  assert (∀ s0 : Facade,
            parseForceTorqueSensors zero nh model s0 =
            (true,
             set_forceTorqueSensorDefinitions_
               (forceTorqueSensorDefinitions_ s0
                  ++ (make_ft_sensor zero nh model
                        <$> getIds nh "force_torque")) s0)) as Hparse.
  { intros s0. unfold parseForceTorqueSensors.
    by rewrite parse_ft_sensors_resolved. }
  destruct (finish_init_force_torque zero nh model s _ _ Hparse) as [-> ->].
  rewrite Hdefs, Hiface. split; [done|]. intros i ft Hi.
  change (ForceTorqueSensorDefinition.sensorName ft)
    with (ForceTorqueSensorHandle.name (ft_handle i ft)) at 1.
  apply registerHandles_lookup with i.
  - rewrite ft_handle_names, fmap_app, <- list_fmap_compose.
    replace (ForceTorqueSensorDefinition.sensorName
               ∘ make_ft_sensor zero nh model <$> getIds nh "force_torque")
      with (getIds nh "force_torque"); [done|].
    apply make_ft_sensor_names.
  - by rewrite list_lookup_imap, Hi.
Qed.

(** The result of [parseIMUSensors], by whether the sensor manager has an
    inertial sensor named ["imu_sensor"]. *)
Lemma parseIMUSensors_result nh model (st : Facade) :
  parseIMUSensors zero nh model st =
  match GetImuSensor model "imu_sensor" with
  | Some _ =>
      (true,
       set_imuSensorDefinitions_
         (imuSensorDefinitions_ st
            ++ (imu_definition_of zero nh <$> getIds nh "imu")) st)
  | None => (bool_decide (getIds nh "imu" = []), st)
  end.
Proof.
  unfold parseIMUSensors.
  destruct (GetImuSensor model "imu_sensor") as [p|] eqn:Hsensor.
  - assert (p = "imu_sensor") as ->.
    { unfold GetImuSensor in Hsensor.
      destruct (sensors model !! "imu_sensor") as [[?|]|]; congruence. }
    assert (foreach (parse_imu_sensor zero nh model) (getIds nh "imu") st =
            Continue
              (set_imuSensorDefinitions_
                 (imuSensorDefinitions_ st
                    ++ (imu_definition_of zero nh <$> getIds nh "imu")) st))
      as ->; [|done].
    revert st. induction (getIds nh "imu") as [|id ids IH]; intros st.
    { simpl. by rewrite app_nil_r, set_imuSensorDefinitions_id. }
    simpl. unfold parse_imu_sensor at 1. rewrite Hsensor, IH.
    destruct st; simpl. by rewrite <- app_assoc.
  - destruct (getIds nh "imu") as [|id ids]; [done|].
    simpl. unfold parse_imu_sensor. by rewrite Hsensor.
Qed.

(** What a return of [parseIMUSensors] tells. When it returns false, a
    sensor is declared, the sensor manager has no inertial sensor named
    ["imu_sensor"] (none of that name, or one of another type), and the
    facade is as it was: the lookup does not depend on the sensor id, so
    the parser returns false at the first sensor or not at all. When it
    returns true, one definition per declared id has been appended, in
    order, each bound to that one sensor whatever its id, and either
    that sensor exists or no sensor is declared. *)
Theorem parseIMUSensors_return nh model (st : Facade) :
  ((parseIMUSensors zero nh model st).1 = false →
   (parseIMUSensors zero nh model st).2 = st
   ∧ GetImuSensor model "imu_sensor" = None
   ∧ getIds nh "imu" ≠ [])
  ∧ ((parseIMUSensors zero nh model st).1 = true →
     (parseIMUSensors zero nh model st).2 =
       set_imuSensorDefinitions_
         (imuSensorDefinitions_ st
            ++ (imu_definition_of zero nh <$> getIds nh "imu")) st
     ∧ (getIds nh "imu" = []
        ∨ GetImuSensor model "imu_sensor" = Some "imu_sensor")).
Proof.
  rewrite parseIMUSensors_result.
  destruct (GetImuSensor model "imu_sensor") as [p|] eqn:Hsensor;
    cbn [fst snd].
  - split; [done|intros _]. split; [done|]. right. f_equal.
    unfold GetImuSensor in Hsensor.
    destruct (sensors model !! "imu_sensor") as [[?|]|]; congruence.
  - destruct (getIds nh "imu") as [|id ids]; simpl.
    + split; [done|intros _]. split; [|by left].
      by rewrite app_nil_r, set_imuSensorDefinitions_id.
    + split; [intros _|done]. done.
Qed.

Lemma imu_handle_names (defs : list (ImuSensorDefinition.t scalar)) :
  ImuSensorHandle.name <$> imap imu_handle defs =
  ImuSensorDefinition.sensorName <$> defs.
Proof.
  apply list_eq. intros i.
  rewrite !list_lookup_fmap, list_lookup_imap. by destruct (defs !! i).
Qed.

Lemma finish_init_inertial nh model (st : Facade) :
  imuSensorDefinitions_ (finish_init zero nh model st) =
    imuSensorDefinitions_ st
  ∧ imu_sensor_interface_ (finish_init zero nh model st) =
    registerHandles ImuSensorHandle.name
      (imap imu_handle (imuSensorDefinitions_ st))
      (imu_sensor_interface_ st).
Proof.
  destruct (parseForceTorqueSensors_appends zero nh model)
    as (new & b & Hparse).
  unfold finish_init. rewrite Hparse. by destruct (bool_param nh _).
Qed.

(** The inertial registration loop of [initSim] works on the definitions
    the facade holds when [initSim] is called, for instance those of an
    earlier [parseIMUSensors]: a successful [initSim] keeps them and
    registers, under the name of each, a handle with its name and frame
    whose orientation, angular-velocity and linear-acceleration addresses
    are those of the orientation, [base_ang_vel] and
    [linear_acceleration] buffers of that same definition (sensor names
    being distinct). *)
Theorem initSim_registers_held_inertial_definitions robot_ns nh model
    transmissions (st : Facade) :
  NoDup (ImuSensorDefinition.sensorName <$> imuSensorDefinitions_ st) →
  (initSim zero res_init robot_ns nh model transmissions st).1 = true →
  let st' := (initSim zero res_init robot_ns nh model transmissions st).2 in
  imuSensorDefinitions_ st' = imuSensorDefinitions_ st
  ∧ ∀ i imu,
      imuSensorDefinitions_ st !! i = Some imu →
      imu_sensor_interface_ st' !! ImuSensorDefinition.sensorName imu =
      Some {| ImuSensorHandle.name := ImuSensorDefinition.sensorName imu;
              ImuSensorHandle.frame_id := ImuSensorDefinition.sensorFrame imu;
              ImuSensorHandle.orientation := imu_orientation i;
              ImuSensorHandle.linear_acceleration :=
                imu_linear_acceleration i;
              ImuSensorHandle.angular_velocity := imu_base_ang_vel i |}.
Proof.
  intros Hnames. rewrite initSim_result.
  pose proof (populate_same_sensors res_init nh model transmissions st)
    as (_ & Hiface & _ & Hdefs & _).
  destruct (foreach _ _ _) as [s|s]; cbn [fst snd]; [intros _|done].
  simpl in Hiface, Hdefs.
  destruct (finish_init_inertial nh model s) as [-> ->].
  rewrite Hdefs, Hiface. split; [done|]. intros i imu Hi.
  change (ImuSensorDefinition.sensorName imu)
    with (ImuSensorHandle.name (imu_handle i imu)) at 1.
  apply registerHandles_lookup with i.
  - by rewrite imu_handle_names.
  - by rewrite list_lookup_imap, Hi.
Qed.

Lemma initSim_parsed_definitions robot_ns nh model transmissions
    (st : Facade) :
  (∀ id, id ∈ getIds nh "force_torque" → resolves nh model id) →
  (initSim zero res_init robot_ns nh model transmissions st).1 = true →
  forceTorqueSensorDefinitions_
    (initSim zero res_init robot_ns nh model transmissions st).2 =
  forceTorqueSensorDefinitions_ st
    ++ (make_ft_sensor zero nh model <$> getIds nh "force_torque").
Proof.
  intros Hall. rewrite initSim_result.
  pose proof (populate_same_sensors res_init nh model transmissions st)
    as (_ & _ & Hdefs & _).
  destruct (foreach _ _ _) as [s|s]; cbn [fst snd]; [intros _|done].
  simpl in Hdefs. rewrite finish_init_parsed.
  unfold parseForceTorqueSensors. rewrite parse_ft_sensors_resolved by done.
  simpl. by rewrite Hdefs.
Qed.

(** [initSim] does not clear the force-torque definitions before it
    parses: called again on the facade it has initialised, with sensors
    that resolve, it appends a second definition for every declared
    sensor, so that each sensor name then occurs twice in the vector. *)
Theorem initSim_again_appends_again robot_ns nh model transmissions
    transmissions' (st : Facade) :
  (∀ id, id ∈ getIds nh "force_torque" → resolves nh model id) →
  (initSim zero res_init robot_ns nh model transmissions st).1 = true →
  (initSim zero res_init robot_ns nh model transmissions'
     (initSim zero res_init robot_ns nh model transmissions st).2).1 = true →
  forceTorqueSensorDefinitions_
    (initSim zero res_init robot_ns nh model transmissions'
       (initSim zero res_init robot_ns nh model transmissions st).2).2 =
  forceTorqueSensorDefinitions_ st
    ++ (make_ft_sensor zero nh model <$> getIds nh "force_torque")
    ++ (make_ft_sensor zero nh model <$> getIds nh "force_torque").
Proof.
  intros Hall Hfirst Hsecond.
  rewrite initSim_parsed_definitions by done.
  rewrite initSim_parsed_definitions by done.
  by rewrite <- app_assoc.
Qed.

End SensorExtras.

(** ** The cycle, further *)

Section CycleExtras.
Context {scalar : Type}.
Variable res_read res_write :
  Resource scalar → Time → Duration → bool → Gazebo scalar →
  Resource scalar * Gazebo scalar.

Local Abbreviation Facade := (PalHardwareGazebo scalar).

Lemma read_force_torque_identity (world : Gazebo scalar) ft :
  ft_identity (read_force_torque world ft) = ft_identity ft.
Proof.
  unfold read_force_torque.
  by destruct (ForceTorqueSensorDefinition.gazebo_joint ft ≫= _).
Qed.

Lemma read_imu_identity (world : Gazebo scalar) imu :
  imu_identity (read_imu world imu) = imu_identity imu.
Proof.
  unfold read_imu.
  by destruct (ImuSensorDefinition.gazebo_imu_sensor imu ≫= _).
Qed.

(** The cycle changes resource objects and sensor buffers and nothing
    else. [readSim] and [writeSim] keep the [RobotHW], both sensor handle
    maps, the cached transmissions, the active-writer set, both flags and
    the number of resources; [readSim] keeps, of every sensor definition,
    the source pointer, the name, the joint name and the frame, in the
    same order. So a handle registered by [initSim], which holds the
    position of a definition, designates the same sensor after any number
    of cycles. *)
Theorem cycle_keeps_registration time period (st : Facade) world :
  same_registration st (readSim res_read time period st world).1.1
  ∧ same_registration st (writeSim res_write time period st world).1.1
  ∧ ft_identity
      <$> forceTorqueSensorDefinitions_
            (readSim res_read time period st world).1.1
    = ft_identity <$> forceTorqueSensorDefinitions_ st
  ∧ imu_identity
      <$> imuSensorDefinitions_ (readSim res_read time period st world).1.1
    = imu_identity <$> imuSensorDefinitions_ st.
Proof.
  pose proof (call_each_length read res_read time period (e_stop_active_ st)
                (seq 0 (length (rw_resources_ st))) (rw_resources_ st) world)
    as Hread.
  pose proof (call_each_length write res_write time period (e_stop_active_ st)
                (active_w_resources_rt_ st) (rw_resources_ st) world)
    as Hwrite.
  unfold readSim, writeSim, same_registration.
  destruct (call_each read _ _ _ _ _ _ _) as [[rs1 world1] calls1].
  destruct (call_each write _ _ _ _ _ _ _) as [[rs2 world2] calls2].
  cbn [fst snd] in *. simpl. repeat split; try done.
  - rewrite <- list_fmap_compose. apply list_fmap_ext.
    intros ? ft _. apply read_force_torque_identity.
  - rewrite <- list_fmap_compose. apply list_fmap_ext.
    intros ? imu _. apply read_imu_identity.
Qed.

(** When every force-torque definition is bound to a joint of the
    simulation, [readSim] leaves no stale value: every definition of the
    vector holds, in [force] and [torque], the [body2Force] and
    [body2Torque] of the wrench its own joint has in the simulation. *)
Theorem readSim_leaves_no_stale_wrench time period (st : Facade) world :
  let st' := (readSim res_read time period st world).1.1 in
  let world' := (readSim res_read time period st world).1.2 in
  Forall (ft_bound world') (forceTorqueSensorDefinitions_ st) →
  ∀ i ft',
    forceTorqueSensorDefinitions_ st' !! i = Some ft' →
    ∃ p joint,
      ForceTorqueSensorDefinition.gazebo_joint ft' = Some p
      ∧ joints world' !! p = Some joint
      ∧ ForceTorqueSensorDefinition.force ft' =
        (Vector3.x (body2Force (GetForceTorque joint)),
         Vector3.y (body2Force (GetForceTorque joint)),
         Vector3.z (body2Force (GetForceTorque joint)))
      ∧ ForceTorqueSensorDefinition.torque ft' =
        (Vector3.x (body2Torque (GetForceTorque joint)),
         Vector3.y (body2Torque (GetForceTorque joint)),
         Vector3.z (body2Torque (GetForceTorque joint))).
Proof.
  unfold readSim.
  destruct (call_each read _ _ _ _ _ _ _) as [[rs world'] calls].
  cbn [fst snd]. simpl. intros Hbound i ft' Hi.
  rewrite list_lookup_fmap in Hi.
  destruct (forceTorqueSensorDefinitions_ st !! i) as [ft|] eqn:Hft; [|done].
  injection Hi as <-.
  destruct (proj1 (Forall_lookup _ _) Hbound i ft Hft)
    as (p & Hp & [joint Hjoint]).
  exists p, joint. unfold read_force_torque. rewrite Hp. simpl.
  by rewrite Hjoint.
Qed.

(** A pass looks at the objects its pointers designate only. *)
Lemma call_each_agree m f time period stop ptrs
    (rs1 rs2 : list (Resource scalar)) world :
  (∀ p, p ∈ ptrs → rs1 !! p = rs2 !! p) →
  (call_each m f time period stop ptrs rs1 world).1.2 =
    (call_each m f time period stop ptrs rs2 world).1.2
  ∧ (call_each m f time period stop ptrs rs1 world).2 =
    (call_each m f time period stop ptrs rs2 world).2.
Proof.
  revert rs1 rs2 world.
  induction ptrs as [|p ptrs IH]; intros rs1 rs2 world Hagree; [done|].
  cbn [call_each]. rewrite <- (Hagree p) by left.
  destruct (rs1 !! p) as [r|] eqn:Hp.
  - destruct (f r time period stop world) as [r' w'].
    specialize (IH (<[p := r']> rs1) (<[p := r']> rs2) w').
    destruct (call_each _ _ _ _ _ _ (<[p := r']> rs1) _) as [[? ?] ?].
    destruct (call_each _ _ _ _ _ _ (<[p := r']> rs2) _) as [[? ?] ?].
    cbn [fst snd] in *. destruct IH as [-> ->]; [|done].
    intros q Hq. destruct (decide (p = q)) as [->|Hne].
    + rewrite !list_lookup_insert_eq; [done| |].
      * apply lookup_lt_is_Some. rewrite <- (Hagree q) by left. by eexists.
      * by eapply lookup_lt_Some.
    + rewrite !list_lookup_insert_ne by done. apply Hagree. by right.
  - apply IH. intros q Hq. apply Hagree. by right.
Qed.

(** [writeSim] reads nothing of a resource outside the active-writer set:
    two facades with the same flag and the same active-writer set whose
    resources agree at the positions the set designates issue the same
    calls and leave the simulation in the same state, whatever their other
    resources hold. *)
Theorem writeSim_reads_active_only time period (st1 st2 : Facade) world :
  e_stop_active_ st1 = e_stop_active_ st2 →
  active_w_resources_rt_ st1 = active_w_resources_rt_ st2 →
  (∀ p, p ∈ active_w_resources_rt_ st1 →
        rw_resources_ st1 !! p = rw_resources_ st2 !! p) →
  (writeSim res_write time period st1 world).1.2 =
    (writeSim res_write time period st2 world).1.2
  ∧ (writeSim res_write time period st1 world).2 =
    (writeSim res_write time period st2 world).2.
Proof.
  intros Hstop Hactive Hagree.
  pose proof (call_each_agree write res_write time period (e_stop_active_ st1)
                (active_w_resources_rt_ st1) (rw_resources_ st1)
                (rw_resources_ st2) world Hagree) as Hsame.
  unfold writeSim. rewrite <- Hstop, <- Hactive.
  destruct (call_each _ _ _ _ _ _ (rw_resources_ st1) _) as [[? ?] ?].
  destruct (call_each _ _ _ _ _ _ (rw_resources_ st2) _) as [[? ?] ?].
  exact Hsame.
Qed.

End CycleExtras.

(** ** The further scenarios *)

Section Scenarios2.
Import Scenario Scenario2.

Local Abbreviation init nh model transmissions :=
  (initSim 0%Z (Resource_init 0%Z) "pal" nh model transmissions fresh).

Lemma initSim_failure_leaves_the_rest_witness :
  (init nh_ft0 world robot_j1_j9).1 = false
  ∧ transmission_infos_ (init nh_ft0 world robot_j1_j9).2 = robot_j1_j9
  ∧ same_sensors fresh (init nh_ft0 world robot_j1_j9).2.
Proof.
  destruct (initSim_failure_leaves_the_rest 0%Z (Resource_init 0%Z) "pal"
              nh_ft0 world robot_j1_j9 fresh) as [Hcached Hrest].
  split; [reflexivity|]. split; [exact Hcached|]. apply Hrest. reflexivity.
Defined.

Lemma initSim_mode_switch_default_witness :
  mode_switch_enabled_ (init nh_mode_off world robot_j1).2 = false
  ∧ mode_switch_enabled_ (init nh_empty world robot_j1).2 = true.
Proof.
  split.
  - apply (initSim_mode_switch_default 0%Z (Resource_init 0%Z) "pal"
             nh_mode_off world robot_j1 fresh). reflexivity.
  - apply (initSim_mode_switch_default 0%Z (Resource_init 0%Z) "pal"
             nh_empty world robot_j1 fresh). reflexivity.
Defined.

Lemma initSim_false_only_by_fatal_init_witness :
  ∃ done joint_name iface_type rest res st1,
    declared_pairs robot_j1_j9 = done ++ (joint_name, iface_type) :: rest
    ∧ foreach
        (λ p : string * string,
           add_resource (Resource_init 0%Z) nh_ft0 world p.1 p.2)
        done (start_init robot_j1_j9 fresh)
      = Continue st1
    ∧ select_resource iface_type = Some res
    ∧ fatal (Resource_init 0%Z res joint_name nh_ft0 world (hw st1)).1
    ∧ (init nh_ft0 world robot_j1_j9).2
      = set_hw (Resource_init 0%Z res joint_name nh_ft0 world (hw st1)).2 st1.
Proof.
  apply (initSim_false_only_by_fatal_init 0%Z (Resource_init 0%Z) "pal"
           nh_ft0 world robot_j1_j9 fresh).
  reflexivity.
Defined.

Lemma parseForceTorqueSensors_return_witness :
  (parseForceTorqueSensors 0%Z nh_ft_ok world fresh).2 =
    set_forceTorqueSensorDefinitions_
      (make_ft_sensor 0%Z nh_ft_ok world <$> ["ft0"; "ft1"]) fresh
  ∧ ∃ pre bad post,
      getIds nh_ft01 "force_torque" = pre ++ bad :: post
      ∧ (∀ id, id ∈ pre →
           is_Some
             (GetJoint world (fetchParam nh_ft01 "force_torque" id
                                "sensor_joint")))
      ∧ GetJoint world (fetchParam nh_ft01 "force_torque" bad "sensor_joint")
        = None
      ∧ (parseForceTorqueSensors 0%Z nh_ft01 world fresh).2 =
        set_forceTorqueSensorDefinitions_
          (forceTorqueSensorDefinitions_ fresh
             ++ (make_ft_sensor 0%Z nh_ft01 world <$> pre)) fresh.
Proof.
  split.
  - apply (proj1 (parseForceTorqueSensors_return 0%Z nh_ft_ok world fresh)).
    reflexivity.
  - apply (proj2 (parseForceTorqueSensors_return 0%Z nh_ft01 world fresh)).
    reflexivity.
Defined.

Lemma parseIMUSensors_return_witness :
  ((parseIMUSensors 0%Z nh_imu01 world_other_sensor fresh).2 = fresh
   ∧ GetImuSensor world_other_sensor "imu_sensor" = None
   ∧ getIds nh_imu01 "imu" ≠ [])
  ∧ (parseIMUSensors 0%Z nh_imu01 world fresh).2 =
    set_imuSensorDefinitions_
      (imuSensorDefinitions_ fresh
         ++ (imu_definition_of 0%Z nh_imu01 <$> getIds nh_imu01 "imu")) fresh.
Proof.
  split.
  - apply (proj1 (parseIMUSensors_return 0%Z nh_imu01 world_other_sensor
                    fresh)).
    reflexivity.
  - apply (proj2 (parseIMUSensors_return 0%Z nh_imu01 world fresh)).
    reflexivity.
Defined.

Lemma force_torque_definitions_stay_bound_witness :
  Forall (ft_bound world)
    (forceTorqueSensorDefinitions_
       (parseForceTorqueSensors 0%Z nh_ft01 world fresh).2)
  ∧ Forall (ft_bound world)
      (forceTorqueSensorDefinitions_ (init nh_ft01 world robot_j1).2).
Proof.
  apply (force_torque_definitions_stay_bound 0%Z (Resource_init 0%Z) "pal"
           nh_ft01 world robot_j1 fresh).
  constructor.
Defined.

Lemma initSim_registers_force_torque_handles_witness :
  ft_sensor_interface_ (init nh_ft_ok world robot_j1).2 !! "ft1" =
  Some {| ForceTorqueSensorHandle.name := "ft1";
          ForceTorqueSensorHandle.frame_id := "ft_link";
          ForceTorqueSensorHandle.force := ft_force 1;
          ForceTorqueSensorHandle.torque := ft_torque 1 |}.
Proof.
  destruct (initSim_registers_force_torque_handles 0%Z (Resource_init 0%Z)
              "pal" nh_ft_ok world robot_j1 fresh) as [Hdefs Hhandles].
  - intros id Hid.
    apply elem_of_cons in Hid as [->|Hid]; [vm_compute; by eexists|].
    apply list_elem_of_singleton in Hid as ->. vm_compute. by eexists.
  - apply (bool_decide_unpack _). vm_compute. exact I.
  - reflexivity.
  - apply (Hhandles 1 (make_ft_sensor 0%Z nh_ft_ok world "ft1")).
    reflexivity.
Defined.

Lemma initSim_again_appends_again_witness :
  ForceTorqueSensorDefinition.sensorName
    <$> forceTorqueSensorDefinitions_
          (initSim 0%Z (Resource_init 0%Z) "pal" nh_ft_ok world robot_j1
             (init nh_ft_ok world robot_j1).2).2
  = ["ft0"; "ft1"; "ft0"; "ft1"].
Proof.
  rewrite (initSim_again_appends_again 0%Z (Resource_init 0%Z) "pal" nh_ft_ok
             world robot_j1 robot_j1 fresh).
  - reflexivity.
  - intros id Hid.
    apply elem_of_cons in Hid as [->|Hid]; [vm_compute; by eexists|].
    apply list_elem_of_singleton in Hid as ->. vm_compute. by eexists.
  - reflexivity.
  - reflexivity.
Defined.

Lemma initSim_registers_held_inertial_definitions_witness :
  imu_sensor_interface_
    (initSim 0%Z (Resource_init 0%Z) "pal" nh_imu01 world robot_j1
       with_imus).2 !! "imu1" =
  Some {| ImuSensorHandle.name := "imu1";
          ImuSensorHandle.frame_id := "base_link";
          ImuSensorHandle.orientation := imu_orientation 1;
          ImuSensorHandle.linear_acceleration := imu_linear_acceleration 1;
          ImuSensorHandle.angular_velocity := imu_base_ang_vel 1 |}.
Proof.
  destruct (initSim_registers_held_inertial_definitions 0%Z
              (Resource_init 0%Z) "pal" nh_imu01 world robot_j1 with_imus)
    as [Hdefs Hhandles].
  - apply (bool_decide_unpack _). vm_compute. exact I.
  - reflexivity.
  - apply (Hhandles 1 (imu_definition_of 0%Z nh_imu01 "imu1")). reflexivity.
Defined.

Lemma readSim_leaves_no_stale_wrench_witness :
  ∃ ft' p joint,
    forceTorqueSensorDefinitions_
      (readSim Resource_read 5%Z 1%Z (running false) world).1.1 !! 0
    = Some ft'
    ∧ ForceTorqueSensorDefinition.gazebo_joint ft' = Some p
    ∧ joints world !! p = Some joint
    ∧ ForceTorqueSensorDefinition.force ft' =
      (Vector3.x (body2Force (GetForceTorque joint)),
       Vector3.y (body2Force (GetForceTorque joint)),
       Vector3.z (body2Force (GetForceTorque joint))).
Proof.
  destruct (readSim_leaves_no_stale_wrench Resource_read 5%Z 1%Z
              (running false) world) with (i := 0)
      (ft' := read_force_torque world (make_ft_sensor 0%Z nh_ft0 world "ft0"))
    as (p & joint & Hp & Hjoint & Hforce & _).
  - apply Forall_singleton. exists "j1". split; [reflexivity|].
    vm_compute. by eexists.
  - reflexivity.
  - exists (read_force_torque world (make_ft_sensor 0%Z nh_ft0 world "ft0")),
      p, joint.
    split; [reflexivity|]. split; [exact Hp|]. split; [exact Hjoint|].
    exact Hforce.
Defined.

Lemma writeSim_reads_active_only_witness :
  rw_resources_ (running false) ≠ rw_resources_ running_other
  ∧ (writeSim (Resource_write 0%Z) 5%Z 1%Z (running false) world).1.2 =
    (writeSim (Resource_write 0%Z) 5%Z 1%Z running_other world).1.2.
Proof.
  split; [discriminate|].
  apply (writeSim_reads_active_only (Resource_write 0%Z) 5%Z 1%Z
           (running false) running_other world).
  - reflexivity.
  - reflexivity.
  - intros p Hp. apply list_elem_of_singleton in Hp as ->. reflexivity.
Defined.

End Scenarios2.
